(** * Calibration engine of [espectroscopia_optica_funcs.py]

    A shallow embedding of the pixel-to-wavelength calibration code
    ([get_linear_transformation], [get_column_intensity],
    [get_wavelength_from_He], [get_spectrum]) and of the NumPy / SciPy
    primitives it calls, followed by the properties of the written
    specification that concern them.

    Numbers.  The program computes with binary64 floating point.  The
    embedding computes with exact rationals ([Q], compared with [==]) and
    keeps, next to the finite values, the three special values a NumPy
    division can produce ([+inf], [-inf], [nan]).  Rounding is not
    modelled: every equation below is an equation of exact arithmetic.
    Pixel positions and the offset are mathematical integers ([Z]); the
    64-bit range of NumPy's index type is not modelled. *)

From Stdlib Require Import String.
From Stdlib Require Import QArith ZArith List Bool Lia Lqa Sorted Permutation.
Import ListNotations.

Set Implicit Arguments.

(** ** Exceptions and fallible computations *)

(** The [ValueError]s the code can raise, told apart by their origin. *)
Inductive value_error : Type :=
| ArgmaxOfEmptySequence      (* np.argmax on an empty array *)
| NotEnoughValuesToUnpack    (* x0, x1 = <array of length < 2> *)
| TooManyValuesToUnpack      (* x0, x1 = <array of length > 2> *)
| InvalidPlotFlag.           (* the final [raise ValueError] of get_spectrum *)

Inductive exn : Type :=
| ZeroDivisionError
| IndexError
| ValueError (why : value_error).

Inductive result (A : Type) : Type :=
| Ok (a : A)
| Raise (e : exn).

Arguments Ok {A} a.
Arguments Raise {A} e.

Definition bind {A B : Type} (c : result A) (k : A -> result B) : result B :=
  match c with
  | Ok a => k a
  | Raise e => Raise e
  end.

Notation "x <- c ;; k" := (bind c (fun x => k))
  (at level 61, c at next level, right associativity).

Definition raises {A : Type} (c : result A) : Prop :=
  exists e, c = Raise e.

(** ** Floating-point values: exact finite part and IEEE special values *)

Inductive fval : Type :=
| Fin (q : Q)
| PInf
| NInf
| NaN.

Definition f_neg (a : fval) : fval :=
  match a with
  | Fin q => Fin (- q)
  | PInf => NInf
  | NInf => PInf
  | NaN => NaN
  end.

Definition f_add (a b : fval) : fval :=
  match a, b with
  | NaN, _ | _, NaN => NaN
  | Fin p, Fin q => Fin (p + q)
  | PInf, NInf | NInf, PInf => NaN
  | PInf, _ | _, PInf => PInf
  | NInf, _ | _, NInf => NInf
  end.

Definition f_sub (a b : fval) : fval := f_add a (f_neg b).

(** The infinity of the sign of [q], [nan] for [q == 0]. *)
Definition signed_inf (q : Q) : fval :=
  match q ?= 0 with
  | Gt => PInf
  | Lt => NInf
  | Eq => NaN
  end.

Definition f_mul (a b : fval) : fval :=
  match a, b with
  | NaN, _ | _, NaN => NaN
  | Fin p, Fin q => Fin (p * q)
  | PInf, Fin q | Fin q, PInf => signed_inf q
  | NInf, Fin q | Fin q, NInf => signed_inf (- q)
  | PInf, PInf | NInf, NInf => PInf
  | PInf, NInf | NInf, PInf => NInf
  end.

(** [v] is the finite number [q]. *)
Definition is_fin (v : fval) (q : Q) : Prop :=
  match v with
  | Fin p => p == q
  | _ => False
  end.

Definition finite (v : fval) : bool :=
  match v with
  | Fin _ => true
  | _ => false
  end.

(** Strict order of two values; false as soon as one is [nan]. *)
Definition f_lt (a b : fval) : Prop :=
  match a, b with
  | NaN, _ | _, NaN => False
  | Fin p, Fin q => p < q
  | NInf, NInf | PInf, _ | _, NInf => False
  | NInf, _ | _, PInf => True
  end.

(** The operands of [/] are Python numbers ([float], [int]) or NumPy
    scalars ([np.int64], [np.float64]).  On a zero divisor Python raises
    [ZeroDivisionError]; NumPy emits a warning and returns [inf] or [nan]. *)
Inductive scalar_kind : Type :=
| PyNumber
| NpScalar.

Definition true_divide (k : scalar_kind) (a b : Q) : result fval :=
  if Qeq_bool b 0 then
    match k with
    | PyNumber => Raise ZeroDivisionError
    | NpScalar => Ok (signed_inf a)
    end
  else Ok (Fin (a / b)).

(** ** [get_linear_transformation] *)

(** The closure [lambda x: m*x + b], as the pair of variables it captures. *)
Record transform : Type := Transform {
  m : fval;
  b : fval
}.

Definition call (t : transform) (x : fval) : fval :=
  f_add (f_mul (m t) x) (b t).

(** [k] is the kind of [x0] and [x1]: the divisor [x1 - x0] has that kind. *)
Definition get_linear_transformation (k : scalar_kind) (x0 x1 y0 y1 : Q)
  : result transform :=
  m <- true_divide k (y1 - y0) (x1 - x0) ;;
  let b := f_sub (Fin y0) (f_mul m (Fin x0)) in
  Ok (Transform m b).

(** ** [get_column_intensity] *)

(** A decoded image after the grayscale reduction: the rows of an
    8-bit array.  Decoding ([cv.imread]) and the colour conversion
    ([cv.cvtColor]) are outside the embedding. *)
Definition image : Type := list (list Z).

(** [grayscale.shape[0]] and [grayscale.shape[1]]. *)
Definition shape0 (g : image) : nat := length g.

Definition shape1 (g : image) : nat :=
  match g with
  | [] => O
  | row :: _ => length row
  end.

(** An [ndarray] is rectangular and an 8-bit pixel lies in [0, 255]. *)
Definition rectangular (g : image) : Prop :=
  Forall (fun row => length row = shape1 g) g.

Definition uint8_pixels (g : image) : Prop :=
  Forall (Forall (fun p => (0 <= p <= 255)%Z)) g.

(** [np.sum] of an 8-bit unsigned array accumulates in unsigned 64-bit
    integers. *)
Definition u64 (z : Z) : Z := (z mod 2 ^ 64)%Z.

Definition add_row (acc row : list Z) : list Z :=
  map (fun ar => u64 (fst ar + snd ar)) (combine acc row).

(** [np.sum(grayscale, axis=0)]: the rows are added up, column by column. *)
Definition np_sum_axis0 (g : image) : list Z :=
  fold_left add_row g (repeat 0%Z (shape1 g)).

Definition get_column_intensity (g : image) : list Q :=
  map (fun s => inject_Z s / inject_Z (Z.of_nat (shape0 g))) (np_sum_axis0 g).

(** ** [scipy.signal.find_peaks]

    The peak detector is a routine of the SciPy library, called with
    [prominence=10] and [distance=20].  Its three stages are embedded in
    the library's order, loop by loop: [_local_maxima_1d],
    [_select_by_peak_distance] with the peak heights as priority, then
    [_peak_prominences] and the selection [prominence <= prominences].
    NumPy leaves the order [np.argsort] gives to equal keys open; the
    embedding fixes one, and no property below depends on it. *)

Definition Qlt_bool (p q : Q) : bool := negb (Qle_bool q p).

(** [x[i]]; the loops below only read inside the array. *)
Definition at_ (x : list Q) (i : nat) : Q := nth i x 0.

(** Boolean-mask indexing [a[keep]]. *)
Fixpoint mask {A : Type} (keep : list bool) (a : list A) : list A :=
  match keep, a with
  | k :: keep', v :: a' => if k then v :: mask keep' a' else mask keep' a'
  | _, _ => []
  end.

(** [keep[k] = 0]. *)
Fixpoint clear (k : nat) (keep : list bool) : list bool :=
  match keep, k with
  | [], _ => []
  | _ :: keep', O => false :: keep'
  | f :: keep', S k' => f :: clear k' keep'
  end.

(** [while i_ahead < i_max and x[i_ahead] == x[i]: i_ahead += 1].
    The loop runs at most [i_max - i_ahead] times, the fuel it is given. *)
Fixpoint look_ahead (x : list Q) (i i_max fuel i_ahead : nat) : nat :=
  match fuel with
  | O => i_ahead
  | S fuel' =>
      if (i_ahead <? i_max)%nat && Qeq_bool (at_ x i_ahead) (at_ x i)
      then look_ahead x i i_max fuel' (S i_ahead)
      else i_ahead
  end.

(** The loop [while i < i_max] of [_local_maxima_1d]; it returns the
    midpoints of the maxima (plateaus included). *)
Fixpoint maxima_loop (x : list Q) (i_max fuel i : nat) : list nat :=
  match fuel with
  | O => []
  | S fuel' =>
      if (i <? i_max)%nat then
        if Qlt_bool (at_ x (i - 1)) (at_ x i) then
          let i_ahead := look_ahead x i i_max (i_max - S i) (S i) in
          if Qlt_bool (at_ x i_ahead) (at_ x i) then
            ((i + (i_ahead - 1)) / 2)%nat :: maxima_loop x i_max fuel' (S i_ahead)
          else maxima_loop x i_max fuel' (S i)
        else maxima_loop x i_max fuel' (S i)
      else []
  end.

Definition local_maxima_1d (x : list Q) : list nat :=
  maxima_loop x (length x - 1) (length x) 1.

(** [np.argsort]: positions by ascending key (insertion sort, stable). *)
Fixpoint insert_by (key : nat -> Q) (j : nat) (sorted : list nat) : list nat :=
  match sorted with
  | [] => [j]
  | j' :: rest =>
      if Qlt_bool (key j) (key j') then j :: sorted
      else j' :: insert_by key j rest
  end.

Definition np_argsort (a : list Q) : list nat :=
  fold_right (insert_by (at_ a)) [] (seq 0 (length a)).

(** [k = j - 1; while 0 <= k and peaks[j] - peaks[k] < distance:
    keep[k] = 0; k -= 1], with [n = k + 1]. *)
Fixpoint suppress_left (peaks : list nat) (distance pj n : nat)
  (keep : list bool) : list bool :=
  match n with
  | O => keep
  | S k =>
      if (Z.of_nat pj - Z.of_nat (nth k peaks O) <? Z.of_nat distance)%Z
      then suppress_left peaks distance pj k (clear k keep)
      else keep
  end.

(** [k = j + 1; while k < peaks_size and peaks[k] - peaks[j] < distance:
    keep[k] = 0; k += 1]. *)
Fixpoint suppress_right (peaks : list nat) (distance pj fuel k : nat)
  (keep : list bool) : list bool :=
  match fuel with
  | O => keep
  | S fuel' =>
      if (k <? length peaks)%nat
         && (Z.of_nat (nth k peaks O) - Z.of_nat pj <? Z.of_nat distance)%Z
      then suppress_right peaks distance pj fuel' (S k) (clear k keep)
      else keep
  end.

(** One round of the loop of [_select_by_peak_distance]: peak [j], when
    it is still kept, removes its neighbours closer than the distance. *)
Definition suppress_round (peaks : list nat) (distance : nat)
  (keep : list bool) (j : nat) : list bool :=
  if nth j keep false then
    let pj := nth j peaks O in
    let keep := suppress_left peaks distance pj j keep in
    suppress_right peaks distance pj (length peaks - S j) (S j) keep
  else keep.

(** [_select_by_peak_distance(peaks, priority, distance)]: the rounds run
    from the highest priority to the lowest. *)
Definition select_by_peak_distance (peaks : list nat) (priority : list Q)
  (distance : nat) : list bool :=
  fold_left (suppress_round peaks distance)
    (rev (np_argsort priority))
    (repeat true (length peaks)).

(** The two scans of [_peak_prominences] ([wlen=None]): the lowest sample
    met while walking away from the peak, until a higher sample or the
    border.  [n = i + 1] on the left. *)
Fixpoint left_min (x : list Q) (xp : Q) (n : nat) (lowest : Q) : Q :=
  match n with
  | O => lowest
  | S i =>
      if Qle_bool (at_ x i) xp
      then left_min x xp i (if Qlt_bool (at_ x i) lowest then at_ x i else lowest)
      else lowest
  end.

Fixpoint right_min (x : list Q) (xp : Q) (fuel i : nat) (lowest : Q) : Q :=
  match fuel with
  | O => lowest
  | S fuel' =>
      if (i <? length x)%nat && Qle_bool (at_ x i) xp
      then right_min x xp fuel' (S i)
             (if Qlt_bool (at_ x i) lowest then at_ x i else lowest)
      else lowest
  end.

Definition Qmax (p q : Q) : Q := if Qlt_bool p q then q else p.

Definition peak_prominence (x : list Q) (peak : nat) : Q :=
  let xp := at_ x peak in
  xp - Qmax (left_min x xp (S peak) xp)
            (right_min x xp (length x - peak) peak xp).

Definition peak_prominences (x : list Q) (peaks : list nat) : list Q :=
  map (peak_prominence x) peaks.

Definition find_peaks (x : list Q) (prominence : Q) (distance : nat) : list nat :=
  let peaks := local_maxima_1d x in
  let keep := select_by_peak_distance peaks (map (at_ x) peaks) distance in
  let peaks := mask keep peaks in
  let prominences := peak_prominences x peaks in
  mask (map (Qle_bool prominence) prominences) peaks.

(** ** NumPy indexing, [np.argmax], tuple unpacking *)

(** [np.argmax] over floats: the scan replaces the current maximum by a
    sample that is not [<=] to it, so the first maximum wins. *)
Fixpoint argmax_loop (mp : Q) (max_ind i : nat) (ip : list Q) : nat :=
  match ip with
  | [] => max_ind
  | v :: ip' =>
      if negb (Qle_bool v mp) then argmax_loop v i (S i) ip'
      else argmax_loop mp max_ind (S i) ip'
  end.

Definition np_argmax (a : list Q) : result nat :=
  match a with
  | [] => Raise (ValueError ArgmaxOfEmptySequence)
  | v :: a' => Ok (argmax_loop v 0 1 a')
  end.

(** Integer-array indexing [a[idx]]. *)
Fixpoint take {A : Type} (a : list A) (idx : list nat) : result (list A) :=
  match idx with
  | [] => Ok []
  | i :: idx' =>
      match nth_error a i with
      | None => Raise IndexError
      | Some v => rest <- take a idx' ;; Ok (v :: rest)
      end
  end.

(** [x0, x1 = a]. *)
Definition unpack2 {A : Type} (a : list A) : result (A * A) :=
  match a with
  | [x0; x1] => Ok (x0, x1)
  | [] | [_] => Raise (ValueError NotEnoughValuesToUnpack)
  | _ => Raise (ValueError TooManyValuesToUnpack)
  end.

(** [peaks + offset] on an integer array. *)
Definition add_offset (peaks : list nat) (offset : Z) : list Z :=
  map (fun p => (Z.of_nat p + offset)%Z) peaks.

(** [np.arange(n)], as floats once multiplied by the slope. *)
Definition np_arange (n : nat) : list fval :=
  map (fun i => Fin (inject_Z (Z.of_nat i))) (seq 0 n).

(** ** [get_wavelength_from_He] *)

(** The helium lines the two brightest-peak configurations are bound to. *)
Definition He_502 : Q := 50260 # 100.
Definition He_588 : Q := 58887 # 100.
Definition He_669 : Q := 66907 # 100.

(** Lines 118-128 of the source: from the profile of the helium image and
    the peak positions found in it to the wavelength of every column. *)
Definition wavelength_from_peaks (intensity : list Q) (peaks : list nat)
  (offset : Z) : result (list fval) :=
  peak_vals <- take intensity peaks ;;
  order_max_max <- np_argmax peak_vals ;;
  pixel_to_wavelen <-
    (if (order_max_max =? 0)%nat then
       x01 <- unpack2 (add_offset (firstn 2 peaks) offset) ;;
       get_linear_transformation NpScalar
         (inject_Z (fst x01)) (inject_Z (snd x01)) He_588 He_669
     else
       anchors <- take peaks [(order_max_max - 1)%nat; order_max_max] ;;
       x01 <- unpack2 (add_offset anchors offset) ;;
       get_linear_transformation NpScalar
         (inject_Z (fst x01)) (inject_Z (snd x01)) He_502 He_588) ;;
  Ok (map (call pixel_to_wavelen) (np_arange (length intensity))).

Definition get_wavelength_from_He (He : image) (offset : Z)
  : result (list fval) :=
  let intensity := get_column_intensity He in
  let peaks := find_peaks intensity 10 20 in
  wavelength_from_peaks intensity peaks offset.

(** ** [get_spectrum] *)








(** ** Notions of the specification *)


(** Sum of the brightness of column [j] over the rows, in unbounded
    integers, and its arithmetic mean. *)
Definition column_sum (g : image) (j : nat) : Z :=
  fold_right Z.add 0%Z (map (fun row => nth j row 0%Z) g).

Definition column_mean (g : image) (j : nat) : Q :=
  inject_Z (column_sum g j) / inject_Z (Z.of_nat (length g)).

(** A wavelength array that grows with the pixel index. *)
Definition strictly_increasing (w : list fval) : Prop :=
  forall i j, (i < j < length w)%nat -> f_lt (nth i w NaN) (nth j w NaN).

(** Pixel index [i] as the float the transform is applied to. *)
Definition pixel (i : nat) : fval := Fin (inject_Z (Z.of_nat i)).

(** The one-row image of width [width], black except for a pixel of value
    50 in column 100 and one of value 80 in column 300. *)
Definition synthetic_pixel (j : nat) : Z :=
  if (j =? 100)%nat then 50%Z
  else if (j =? 300)%nat then 80%Z else 0%Z.

Definition synthetic_row (width : nat) : list Z :=
  map synthetic_pixel (seq 0 width).

Definition synthetic_image (width : nat) : image := [synthetic_row width].

(** The pixel position of the [i]-th detected peak, shifted by the offset. *)
Definition shifted_peak (peaks : list nat) (offset : Z) (i : nat) : Q :=
  inject_Z (Z.of_nat (nth i peaks O) + offset).

(** The wavelength axis obtained by fitting on the anchors [(x0, y0)] and
    [(x1, y1)] and applying the transform to the pixel indices
    [0 .. width - 1]. *)
Definition calibrated_axis (x0 x1 y0 y1 : Q) (width : nat) : result (list fval) :=
  t <- get_linear_transformation NpScalar x0 x1 y0 y1 ;;
  Ok (map (call t) (np_arange width)).

(** A small helium image: one row, peaks in columns 1 and 24. *)
Definition helium_image : image := [[0; 90] ++ repeat 0 22 ++ [200; 0]]%Z.

(** The profile of the synthetic image, and its value in column [j]
    (a sum over one row, divided by the height 1). *)
Definition synthetic_profile (width : nat) : list Q :=
  get_column_intensity (synthetic_image width).

Definition synthetic_value (j : nat) : Q :=
  inject_Z (synthetic_pixel j) / inject_Z (Z.of_nat 1).

(** The test [x[i - 1] < x[i]] of the scan for local maxima, and the scan
    started at [i] with the fuel that is left at that point. *)
Definition rises (x : list Q) (i : nat) : bool :=
  Qlt_bool (at_ x (i - 1)) (at_ x i).

Definition maxima_from (x : list Q) (i_max i : nat) : list nat :=
  maxima_loop x i_max (i_max - i) i.

(** ** [balmer_wavelength] *)

(** Python's [/] on finite Python numbers: the true quotient, or
    [ZeroDivisionError] on a zero divisor. *)
Definition py_div (a b : Q) : result Q :=
  if Qeq_bool b 0 then Raise ZeroDivisionError else Ok (a / b).

(** The constants the source reads from [scipy.constants] (imported as
    [cte]): values of the library, taken as a parameter. *)
Record constants : Type := Constants {
  Rydberg : Q;
  m_e : Q;
  m_p : Q;
  m_n : Q
}.

(** [cte.Rydberg/(1 + cte.m_e/(cte.m_p + cte.m_n))]. *)
Definition Ryd_hidrogeno (cte : constants) : result Q :=
  ratio <- py_div (m_e cte) (m_p cte + m_n cte) ;;
  py_div (Rydberg cte) (1 + ratio).

(** [n] is a Python [int]: [n**2] is exact, [1/n**2] a true division. *)
Definition balmer_wavelength (cte : constants) (n : Z) : result Q :=
  Ryd <- Ryd_hidrogeno cte ;;
  quarter <- py_div 1 4 ;;
  inv_square <- py_div 1 (inject_Z (n ^ 2)) ;;
  py_div 1 (Ryd * (quarter - inv_square)).

(** Physical constants are positive. *)
Definition physical (cte : constants) : Prop :=
  0 < Rydberg cte /\ 0 < m_e cte /\ 0 < m_p cte /\ 0 < m_n cte.

(** The number [Ryd_hidrogeno] stands for, and the limit of the series,
    [4 / R_H]. *)
Definition R_H (cte : constants) : Q :=
  Rydberg cte / (1 + m_e cte / (m_p cte + m_n cte)).


(** The CODATA 2018 values, in SI units. *)
Definition codata_2018 : constants :=
  Constants (10973731568160 # 1000000)
            (91093837015 # (10 ^ 41))
            (167262192369 # (10 ^ 38))
            (167492749804 # (10 ^ 38)).

(** ** [wavelength_to_RGB] *)

(** A colour channel: a float literal of the source, or a power
    [base ** gamma] with [gamma = 0.8].  The power has no rational value;
    the embedding keeps its base.  The wavelength is a finite float. *)
Inductive channel : Type :=
| Lit (v : Q)
| Gamma (base : Q).

Definition rgb : Type := (channel * channel * channel)%type.

(** The bodies of the six branches, in the order of the source. *)
Definition rgb_380_440 (wavelength : Q) : rgb :=
  let attenuation := (3 # 10) + (7 # 10) * (wavelength - 380) / (440 - 380) in
  (Gamma ((- (wavelength - 440) / (440 - 380)) * attenuation),
   Lit 0,
   Gamma attenuation).

Definition rgb_440_490 (wavelength : Q) : rgb :=
  (Lit 0, Gamma ((wavelength - 440) / (490 - 440)), Lit 1).

Definition rgb_490_510 (wavelength : Q) : rgb :=
  (Lit 0, Lit 1, Gamma ((510 - wavelength) / (510 - 490))).

Definition rgb_510_580 (wavelength : Q) : rgb :=
  (Gamma ((wavelength - 510) / (580 - 510)), Lit 1, Lit 0).

Definition rgb_580_645 (wavelength : Q) : rgb :=
  (Lit 1, Gamma ((645 - wavelength) / (645 - 580)), Lit 0).

Definition rgb_645_750 (wavelength : Q) : rgb :=
  let attenuation := (3 # 10) + (7 # 10) * (750 - wavelength) / (750 - 645) in
  (Gamma attenuation, Lit 0, Lit 0).

Definition white : rgb := (Lit 1, Lit 1, Lit 1).

(** [wavelength >= lo and wavelength <= hi]. *)
Definition between (lo hi wavelength : Q) : bool :=
  Qle_bool lo wavelength && Qle_bool wavelength hi.

Definition wavelength_to_RGB (wavelength : Q) : rgb :=
  if between 380 440 wavelength then rgb_380_440 wavelength
  else if between 440 490 wavelength then rgb_440_490 wavelength
  else if between 490 510 wavelength then rgb_490_510 wavelength
  else if between 510 580 wavelength then rgb_510_580 wavelength
  else if between 580 645 wavelength then rgb_580_645 wavelength
  else if between 645 750 wavelength then rgb_645_750 wavelength
  else white.

(** The value of a channel under an interpretation [pow_gamma] of
    [x ** gamma], and of a colour. *)
Definition channel_value (pow_gamma : Q -> Q) (c : channel) : Q :=
  match c with
  | Lit v => v
  | Gamma base => pow_gamma base
  end.

(** The number a channel is computed from: the literal, or the base of
    the power. *)
Definition channel_arg (c : channel) : Q :=
  match c with
  | Lit v => v
  | Gamma base => base
  end.

Definition channels (c : rgb) : list channel :=
  [fst (fst c); snd (fst c); snd c].

(** The guards and bodies of the [if]/[elif] chain, side by side. *)
Definition rgb_branches : list ((Q -> bool) * (Q -> rgb)) :=
  [(between 380 440, rgb_380_440);
   (between 440 490, rgb_440_490);
   (between 490 510, rgb_490_510);
   (between 510 580, rgb_510_580);
   (between 580 645, rgb_580_645);
   (between 645 750, rgb_645_750)].

(** Two colours with the same channel values. *)
Definition same_colour (pow_gamma : Q -> Q) (c1 c2 : rgb) : Prop :=
  Forall2 (fun a b => channel_value pow_gamma a == channel_value pow_gamma b)
          (channels c1) (channels c2).

(** A number of the unit interval. *)
Definition in_unit (q : Q) : Prop := 0 <= q <= 1.

(** * Properties *)

(** ** The fitter *)

Lemma true_divide_nonzero (k : scalar_kind) (a d : Q) :
  ~ d == 0 -> true_divide k a d = Ok (Fin (a / d)).
Proof.
  intros Hd. unfold true_divide.
  destruct (Qeq_bool d 0) eqn:E; [ | reflexivity ].
  apply Qeq_bool_iff in E. contradiction.
Qed.

Lemma true_divide_zero (k : scalar_kind) (a d : Q) :
  d == 0 ->
  true_divide k a d =
    match k with
    | PyNumber => Raise ZeroDivisionError
    | NpScalar => Ok (signed_inf a)
    end.
Proof.
  intros Hd. unfold true_divide.
  apply Qeq_bool_iff in Hd. rewrite Hd. reflexivity.
Qed.

(** With distinct anchors the fit succeeds, whatever the kind of number,
    and its slope and intercept are the finite numbers of the formula. *)
Lemma get_linear_transformation_distinct (k : scalar_kind) (x0 x1 y0 y1 : Q) :
  ~ x0 == x1 ->
  get_linear_transformation k x0 x1 y0 y1 =
    Ok (Transform (Fin ((y1 - y0) / (x1 - x0)))
                  (Fin (y0 + - ((y1 - y0) / (x1 - x0) * x0)))).
Proof.
  intros Hx. unfold get_linear_transformation.
  rewrite true_divide_nonzero; [ reflexivity | ].
  intros E. apply Hx. lra.
Qed.

Lemma signed_inf_not_finite (q : Q) : finite (signed_inf q) = false.
Proof. unfold signed_inf. destruct (q ?= 0); reflexivity. Qed.

Lemma f_mul_not_finite (a x : fval) : finite a = false -> finite (f_mul a x) = false.
Proof.
  destruct a as [p | | | ]; [ discriminate | | | ]; intros _;
    destruct x as [q | | | ]; simpl; auto using signed_inf_not_finite.
Qed.

Lemma f_add_not_finite_l (a c : fval) : finite a = false -> finite (f_add a c) = false.
Proof.
  destruct a as [p | | | ]; [ discriminate | | | ]; intros _;
    destruct c as [q | | | ]; reflexivity.
Qed.

(** C7: for anchors [(x0, y0)] and [(x1, y1)] with [x0 <> x1] the fitted
    transform sends each anchor pixel to its anchor wavelength,
    [transform(x0) == y0] and [transform(x1) == y1], in exact arithmetic. *)
Theorem anchor_round_trip (k : scalar_kind) (x0 x1 y0 y1 : Q) :
  ~ x0 == x1 ->
  exists t,
    get_linear_transformation k x0 x1 y0 y1 = Ok t
    /\ is_fin (call t (Fin x0)) y0
    /\ is_fin (call t (Fin x1)) y1.
Proof.
  intros Hx. eexists. split.
  - apply get_linear_transformation_distinct, Hx.
  - unfold call, is_fin; simpl. split; field; intros E; apply Hx; lra.
Qed.

Lemma anchor_round_trip_witness :
  ~ 100 == 300
  /\ exists t,
       get_linear_transformation NpScalar 100 300 He_502 He_588 = Ok t
       /\ is_fin (call t (Fin 100)) He_502
       /\ is_fin (call t (Fin 300)) He_588.
Proof.
  split; [ discriminate | apply (@anchor_round_trip NpScalar 100 300 He_502 He_588); discriminate ].
Defined.

(** C8: shifting both anchor pixels by a constant [d] before fitting leaves
    the slope [m] unchanged and moves the intercept by exactly [- m * d]. *)
Theorem offset_shifts_intercept (k : scalar_kind) (x0 x1 y0 y1 d : Q) :
  ~ x0 == x1 ->
  exists mq bq t',
    get_linear_transformation k x0 x1 y0 y1 = Ok (Transform (Fin mq) (Fin bq))
    /\ get_linear_transformation k (x0 + d) (x1 + d) y0 y1 = Ok t'
    /\ is_fin (m t') mq
    /\ is_fin (b t') (bq - mq * d).
Proof.
  intros Hx.
  assert (Hd : ~ x1 - x0 == 0) by (intros E; apply Hx; lra).
  assert (Hx' : ~ x0 + d == x1 + d) by (intros E; apply Hx; lra).
  do 3 eexists. split; [ | split ].
  - apply get_linear_transformation_distinct, Hx.
  - apply get_linear_transformation_distinct, Hx'.
  - unfold is_fin; simpl. split; field; try assumption; intros E; apply Hx; lra.
Qed.

Lemma offset_shifts_intercept_witness :
  ~ 100 == 300
  /\ exists mq bq t',
       get_linear_transformation NpScalar 100 300 He_502 He_588
         = Ok (Transform (Fin mq) (Fin bq))
       /\ get_linear_transformation NpScalar (100 + 7) (300 + 7) He_502 He_588 = Ok t'
       /\ is_fin (m t') mq
       /\ is_fin (b t') (bq - mq * 7).
Proof.
  split; [ discriminate | apply (@offset_shifts_intercept NpScalar 100 300 He_502 He_588 7); discriminate ].
Defined.

(** C4, as stated, fails: with NumPy integers for the two positions, which
    is what [get_wavelength_from_He] passes, equal positions raise nothing
    and the transform that comes back has an infinite slope. *)
Lemma degenerate_numpy_anchors_do_not_raise :
  (5 : Q) == 5
  /\ get_linear_transformation NpScalar 5 5 He_588 He_669 = Ok (Transform PInf NInf)
  /\ ~ raises (get_linear_transformation NpScalar 5 5 He_588 He_669).
Proof.
  split; [ reflexivity | split; [ reflexivity | ] ].
  intros [e He]. discriminate He.
Qed.

(** C4, amended: for anchors at the same pixel position, the fit raises
    [ZeroDivisionError] when the positions are Python numbers; when they
    are NumPy scalars it raises nothing and returns a transform whose
    slope is not finite and whose value is finite at no pixel. *)
Theorem degenerate_anchors (x0 x1 y0 y1 : Q) :
  x0 == x1 ->
  get_linear_transformation PyNumber x0 x1 y0 y1 = Raise ZeroDivisionError
  /\ exists t,
       get_linear_transformation NpScalar x0 x1 y0 y1 = Ok t
       /\ finite (m t) = false
       /\ forall x, finite (call t x) = false.
Proof.
  intros Hx.
  assert (Hd : x1 - x0 == 0) by lra.
  unfold get_linear_transformation.
  rewrite !true_divide_zero by exact Hd. simpl.
  split; [ reflexivity | ].
  eexists. split; [ reflexivity | ]. simpl.
  split; [ apply signed_inf_not_finite | ].
  intros x. unfold call; simpl.
  apply f_add_not_finite_l, f_mul_not_finite, signed_inf_not_finite.
Qed.

Lemma degenerate_anchors_witness :
  (5 : Q) == 5
  /\ get_linear_transformation PyNumber 5 5 He_588 He_669 = Raise ZeroDivisionError
  /\ exists t,
       get_linear_transformation NpScalar 5 5 He_588 He_669 = Ok t
       /\ finite (m t) = false
       /\ forall x, finite (call t x) = false.
Proof.
  split; [ reflexivity | apply (@degenerate_anchors 5 5 He_588 He_669); reflexivity ].
Defined.

(** ** The column intensity extractor *)

Lemma add_row_length (acc row : list Z) :
  length row = length acc -> length (add_row acc row) = length acc.
Proof.
  intros H. unfold add_row.
  rewrite length_map, length_combine, H. apply Nat.min_id.
Qed.

Lemma add_row_nth (acc row : list Z) (j : nat) :
  length row = length acc -> (j < length acc)%nat ->
  nth j (add_row acc row) 0%Z = u64 (nth j acc 0%Z + nth j row 0%Z).
Proof.
  unfold add_row. revert row j.
  induction acc as [ | a acc IH ]; intros row j Hlen Hj; simpl in *; [ lia | ].
  destruct row as [ | r row ]; simpl in *; [ discriminate | ].
  destruct j as [ | j ]; [ reflexivity | ].
  apply IH; lia.
Qed.

Lemma fold_add_row_length (g : image) (acc : list Z) :
  Forall (fun row => length row = length acc) g ->
  length (fold_left add_row g acc) = length acc.
Proof.
  revert acc. induction g as [ | row g IH ]; intros acc Hg; simpl; [ reflexivity | ].
  inversion Hg as [ | ? ? Hrow Hrest ]; subst.
  rewrite IH.
  - apply add_row_length, Hrow.
  - rewrite add_row_length by exact Hrow. exact Hrest.
Qed.

Lemma u64_add_l (a r : Z) : u64 (u64 a + r) = u64 (a + r).
Proof. unfold u64. apply Zplus_mod_idemp_l. Qed.

(** The accumulated column is the true column sum, modulo [2 ^ 64]. *)
Lemma fold_add_row_nth (g : image) (acc : list Z) (j : nat) :
  Forall (fun row => length row = length acc) g ->
  (j < length acc)%nat ->
  u64 (nth j (fold_left add_row g acc) 0%Z) = u64 (nth j acc 0%Z + column_sum g j).
Proof.
  revert acc. induction g as [ | row g IH ]; intros acc Hg Hj.
  - simpl. unfold column_sum; simpl. f_equal. lia.
  - inversion Hg as [ | ? ? Hrow Hrest ]; subst. simpl.
    rewrite IH.
    + rewrite add_row_nth by assumption. rewrite u64_add_l.
      unfold column_sum; simpl. f_equal. lia.
    + rewrite add_row_length by exact Hrow. exact Hrest.
    + rewrite add_row_length by exact Hrow. exact Hj.
Qed.

(** After at least one row the accumulator holds reduced values. *)
Lemma fold_add_row_reduced (g : image) (acc : list Z) (j : nat) :
  Forall (fun row => length row = length acc) g ->
  (j < length acc)%nat ->
  (0 <= nth j acc 0 < 2 ^ 64)%Z ->
  (0 <= nth j (fold_left add_row g acc) 0 < 2 ^ 64)%Z.
Proof.
  revert acc. induction g as [ | row g IH ]; intros acc Hg Hj Hacc; simpl; [ exact Hacc | ].
  inversion Hg as [ | ? ? Hrow Hrest ]; subst.
  apply IH.
  - rewrite add_row_length by exact Hrow. exact Hrest.
  - rewrite add_row_length by exact Hrow. exact Hj.
  - rewrite add_row_nth by assumption. unfold u64. apply Z.mod_pos_bound. lia.
Qed.

Lemma column_sum_bounds (g : image) (j : nat) :
  uint8_pixels g ->
  (0 <= column_sum g j <= 255 * Z.of_nat (length g))%Z.
Proof.
  unfold uint8_pixels, column_sum.
  induction g as [ | row g IH ]; intros Hg; [ simpl; lia | ].
  inversion Hg as [ | ? ? Hrow Hrest ]; subst.
  specialize (IH Hrest).
  assert (Hp : (0 <= nth j row 0 <= 255)%Z).
  { destruct (Nat.lt_ge_cases j (length row)) as [Hlt | Hge].
    - rewrite Forall_forall in Hrow. apply Hrow, nth_In, Hlt.
    - rewrite nth_overflow by exact Hge. lia. }
  cbn [map fold_right length]. lia.
Qed.

Lemma nth_repeat_zero (n j : nat) : nth j (repeat 0%Z n) 0%Z = 0%Z.
Proof.
  revert j. induction n as [ | n IH ]; intros [ | j ]; simpl; auto.
Qed.

Lemma np_sum_axis0_length (g : image) :
  rectangular g -> length (np_sum_axis0 g) = shape1 g.
Proof.
  intros Hr. unfold np_sum_axis0.
  rewrite fold_add_row_length; rewrite repeat_length; [ reflexivity | exact Hr ].
Qed.

Lemma np_sum_axis0_nth (g : image) (j : nat) :
  rectangular g -> uint8_pixels g ->
  (255 * Z.of_nat (shape0 g) < 2 ^ 64)%Z ->
  (j < shape1 g)%nat ->
  nth j (np_sum_axis0 g) 0%Z = column_sum g j.
Proof.
  intros Hr Hp Hh Hj. unfold np_sum_axis0.
  assert (Hlen : length (repeat 0%Z (shape1 g)) = shape1 g) by apply repeat_length.
  assert (Hr' : Forall (fun row => length row = length (repeat 0%Z (shape1 g))) g)
    by (rewrite Hlen; exact Hr).
  pose proof (@fold_add_row_nth g _ j Hr') as Hmod.
  pose proof (@fold_add_row_reduced g _ j Hr') as Hred.
  rewrite Hlen, nth_repeat_zero in *.
  specialize (Hmod Hj). specialize (Hred Hj ltac:(lia)).
  pose proof (column_sum_bounds j Hp) as Hb. unfold shape0 in Hh.
  unfold u64 in Hmod.
  rewrite Z.mod_small in Hmod by exact Hred.
  rewrite Z.mod_small in Hmod by lia.
  exact Hmod.
Qed.

(** C9: for an image of width [W] and height [H > 0] the extractor returns
    a profile of length exactly [W] whose [j]-th entry is the arithmetic
    mean of the brightness over the [H] rows of column [j].  The image is
    an 8-bit rectangular array whose column sums fit the 64-bit
    accumulator of [np.sum] (any image that fits in memory). *)
Theorem column_intensity_is_column_mean (g : image) :
  rectangular g -> uint8_pixels g ->
  (0 < shape0 g)%nat ->
  (255 * Z.of_nat (shape0 g) < 2 ^ 64)%Z ->
  length (get_column_intensity g) = shape1 g
  /\ forall j, (j < shape1 g)%nat ->
       nth j (get_column_intensity g) 0 == column_mean g j.
Proof.
  intros Hr Hp Hpos Hh. unfold get_column_intensity. split.
  - rewrite length_map. apply np_sum_axis0_length, Hr.
  - intros j Hj.
    assert (E : forall d, nth j (map (fun s => inject_Z s / inject_Z (Z.of_nat (shape0 g)))
                                    (np_sum_axis0 g)) d
                          = inject_Z (nth j (np_sum_axis0 g) 0%Z) / inject_Z (Z.of_nat (shape0 g))).
    { intros d. rewrite nth_indep with (d' := inject_Z 0 / inject_Z (Z.of_nat (shape0 g))).
      - apply (map_nth (fun s => inject_Z s / inject_Z (Z.of_nat (shape0 g)))).
      - rewrite length_map, np_sum_axis0_length by exact Hr. exact Hj. }
    rewrite E, np_sum_axis0_nth by assumption.
    unfold column_mean, column_sum, shape0. reflexivity.
Qed.

Lemma column_intensity_is_column_mean_witness :
  let g := [[10; 20; 30]; [30; 40; 60]]%Z in
  length (get_column_intensity g) = 3%nat
  /\ forall j, (j < 3)%nat -> nth j (get_column_intensity g) 0 == column_mean g j.
Proof.
  intros g.
  apply (@column_intensity_is_column_mean g).
  - repeat constructor.
  - repeat constructor; simpl; lia.
  - simpl; lia.
  - vm_compute; reflexivity.
Defined.

(** ** The peak detector *)

(** *** The fuel of the loops is enough *)

Lemma look_ahead_fuel (x : list Q) (i i_max : nat) :
  forall fuel1 fuel2 i_ahead,
    (i_max - i_ahead <= fuel1)%nat -> (i_max - i_ahead <= fuel2)%nat ->
    look_ahead x i i_max fuel1 i_ahead = look_ahead x i i_max fuel2 i_ahead.
Proof.
  induction fuel1 as [ | fuel1 IH ]; intros fuel2 i_ahead H1 H2.
  - destruct fuel2 as [ | fuel2 ]; [ reflexivity | ]. simpl.
    replace (i_ahead <? i_max)%nat with false; [ reflexivity | ].
    symmetry. apply Nat.ltb_ge. lia.
  - destruct fuel2 as [ | fuel2 ]; simpl.
    + replace (i_ahead <? i_max)%nat with false; [ reflexivity | ].
      symmetry. apply Nat.ltb_ge. lia.
    + destruct (i_ahead <? i_max)%nat eqn:E; [ | reflexivity ].
      apply Nat.ltb_lt in E.
      destruct (Qeq_bool (at_ x i_ahead) (at_ x i)); simpl; [ | reflexivity ].
      apply IH; lia.
Qed.

(** The inner loop stops where the source's loop condition fails. *)
Lemma look_ahead_exit (x : list Q) (i i_max : nat) :
  forall fuel i_ahead,
    (i_max - i_ahead <= fuel)%nat ->
    let r := look_ahead x i i_max fuel i_ahead in
    (r <? i_max)%nat && Qeq_bool (at_ x r) (at_ x i) = false.
Proof.
  induction fuel as [ | fuel IH ]; intros i_ahead Hf; simpl.
  - replace (i_ahead <? i_max)%nat with false; [ reflexivity | ].
    symmetry. apply Nat.ltb_ge. lia.
  - destruct ((i_ahead <? i_max)%nat && Qeq_bool (at_ x i_ahead) (at_ x i)) eqn:E.
    + apply andb_true_iff in E. destruct E as [E _]. apply Nat.ltb_lt in E.
      apply IH. lia.
    + exact E.
Qed.

Lemma look_ahead_bounds (x : list Q) (i i_max : nat) :
  forall fuel i_ahead,
    (i_ahead <= i_max)%nat ->
    (i_ahead <= look_ahead x i i_max fuel i_ahead <= i_max)%nat.
Proof.
  induction fuel as [ | fuel IH ]; intros i_ahead Hle; simpl; [ lia | ].
  destruct (i_ahead <? i_max)%nat eqn:E; simpl; [ | lia ].
  apply Nat.ltb_lt in E.
  destruct (Qeq_bool (at_ x i_ahead) (at_ x i)); [ | lia ].
  specialize (IH (S i_ahead) ltac:(lia)). lia.
Qed.

Lemma maxima_loop_fuel (x : list Q) (i_max : nat) :
  forall fuel1 fuel2 i,
    (i_max - i <= fuel1)%nat -> (i_max - i <= fuel2)%nat ->
    maxima_loop x i_max fuel1 i = maxima_loop x i_max fuel2 i.
Proof.
  induction fuel1 as [ | fuel1 IH ]; intros fuel2 i H1 H2.
  - destruct fuel2 as [ | fuel2 ]; [ reflexivity | ]. simpl.
    replace (i <? i_max)%nat with false; [ reflexivity | ].
    symmetry. apply Nat.ltb_ge. lia.
  - destruct fuel2 as [ | fuel2 ]; simpl.
    + replace (i <? i_max)%nat with false; [ reflexivity | ].
      symmetry. apply Nat.ltb_ge. lia.
    + destruct (i <? i_max)%nat eqn:E; [ | reflexivity ].
      apply Nat.ltb_lt in E.
      pose proof (@look_ahead_bounds x i i_max (i_max - S i) (S i) ltac:(lia)) as Hb.
      destruct (Qlt_bool (at_ x (i - 1)) (at_ x i)); [ | apply IH; lia ].
      destruct (Qlt_bool (at_ x (look_ahead x i i_max (i_max - S i) (S i))) (at_ x i)).
      * f_equal. apply IH; lia.
      * apply IH; lia.
Qed.

Lemma right_min_fuel (x : list Q) (xp : Q) :
  forall fuel1 fuel2 i lowest,
    (length x - i <= fuel1)%nat -> (length x - i <= fuel2)%nat ->
    right_min x xp fuel1 i lowest = right_min x xp fuel2 i lowest.
Proof.
  induction fuel1 as [ | fuel1 IH ]; intros fuel2 i lowest H1 H2.
  - destruct fuel2 as [ | fuel2 ]; [ reflexivity | ]. simpl.
    replace (i <? length x)%nat with false; [ reflexivity | ].
    symmetry. apply Nat.ltb_ge. lia.
  - destruct fuel2 as [ | fuel2 ]; simpl.
    + replace (i <? length x)%nat with false; [ reflexivity | ].
      symmetry. apply Nat.ltb_ge. lia.
    + destruct (i <? length x)%nat eqn:E; [ | reflexivity ].
      apply Nat.ltb_lt in E.
      destruct (Qle_bool (at_ x i) xp); simpl; [ | reflexivity ].
      apply IH; lia.
Qed.

Lemma clear_length (k : nat) (keep : list bool) : length (clear k keep) = length keep.
Proof.
  revert k. induction keep as [ | f keep IH ]; intros [ | k ]; simpl; auto.
Qed.

Lemma suppress_right_fuel (peaks : list nat) (distance pj : nat) :
  forall fuel1 fuel2 k keep,
    (length peaks - k <= fuel1)%nat -> (length peaks - k <= fuel2)%nat ->
    suppress_right peaks distance pj fuel1 k keep
    = suppress_right peaks distance pj fuel2 k keep.
Proof.
  induction fuel1 as [ | fuel1 IH ]; intros fuel2 k keep H1 H2.
  - destruct fuel2 as [ | fuel2 ]; [ reflexivity | ]. simpl.
    replace (k <? length peaks)%nat with false; [ reflexivity | ].
    symmetry. apply Nat.ltb_ge. lia.
  - destruct fuel2 as [ | fuel2 ]; simpl.
    + replace (k <? length peaks)%nat with false; [ reflexivity | ].
      symmetry. apply Nat.ltb_ge. lia.
    + destruct (k <? length peaks)%nat eqn:E; [ | reflexivity ].
      apply Nat.ltb_lt in E.
      destruct (Z.of_nat (nth k peaks 0%nat) - Z.of_nat pj <? Z.of_nat distance)%Z;
        simpl; [ | reflexivity ].
      apply IH; lia.
Qed.

(** *** The detected positions are inside the profile and ascending *)

Lemma mask_Forall {A : Type} (P : A -> Prop) (keep : list bool) (a : list A) :
  Forall P a -> Forall P (mask keep a).
Proof.
  revert keep. induction a as [ | v a IH ]; intros keep Ha.
  - destruct keep; constructor.
  - inversion Ha as [ | ? ? Hv Hrest ]; subst.
    destruct keep as [ | [ | ] keep ]; simpl; auto.
Qed.

Lemma mask_sorted_rel {A : Type} (R : A -> A -> Prop) (keep : list bool) (a : list A) :
  StronglySorted R a -> StronglySorted R (mask keep a).
Proof.
  revert keep. induction a as [ | v a IH ]; intros keep Ha.
  - destruct keep; constructor.
  - apply StronglySorted_inv in Ha. destruct Ha as [Hs Hv].
    destruct keep as [ | [ | ] keep ]; simpl; [ constructor | | auto ].
    constructor; [ auto | apply mask_Forall, Hv ].
Qed.

Lemma maxima_loop_range (x : list Q) (i_max : nat) :
  forall fuel i,
    Forall (fun p => (i <= p < i_max)%nat) (maxima_loop x i_max fuel i).
Proof.
  induction fuel as [ | fuel IH ]; intros i; simpl; [ constructor | ].
  destruct (i <? i_max)%nat eqn:E; [ | constructor ].
  apply Nat.ltb_lt in E.
  pose proof (@look_ahead_bounds x i i_max (i_max - S i) (S i) ltac:(lia)) as Hb.
  set (i_ahead := look_ahead x i i_max (i_max - S i) (S i)) in *.
  assert (Hnext : forall j, (i < j)%nat ->
            Forall (fun p => (i <= p < i_max)%nat) (maxima_loop x i_max fuel j)).
  { intros j Hj. eapply Forall_impl; [ | apply (IH j) ]. simpl. intros p Hp. lia. }
  destruct (Qlt_bool (at_ x (i - 1)) (at_ x i)); [ | apply Hnext; lia ].
  destruct (Qlt_bool (at_ x i_ahead) (at_ x i)); [ | apply Hnext; lia ].
  constructor; [ | apply Hnext; lia ].
  assert (Hdiv : ((i + (i_ahead - 1)) / 2 <= i_ahead - 1)%nat).
  { apply Nat.Div0.div_le_upper_bound. lia. }
  assert (Hdiv' : (i <= (i + (i_ahead - 1)) / 2)%nat).
  { apply Nat.div_le_lower_bound; lia. }
  cbv beta. split; [ exact Hdiv' | ].
  apply Nat.le_lt_trans with (i_ahead - 1)%nat; [ exact Hdiv | lia ].
Qed.

Lemma maxima_loop_sorted (x : list Q) (i_max : nat) :
  forall fuel i, StronglySorted lt (maxima_loop x i_max fuel i).
Proof.
  induction fuel as [ | fuel IH ]; intros i; simpl; [ constructor | ].
  destruct (i <? i_max)%nat eqn:E; [ | constructor ].
  apply Nat.ltb_lt in E.
  pose proof (@look_ahead_bounds x i i_max (i_max - S i) (S i) ltac:(lia)) as Hb.
  set (i_ahead := look_ahead x i i_max (i_max - S i) (S i)) in *.
  destruct (Qlt_bool (at_ x (i - 1)) (at_ x i)); [ | apply IH ].
  destruct (Qlt_bool (at_ x i_ahead) (at_ x i)); [ | apply IH ].
  constructor; [ apply IH | ].
  eapply Forall_impl; [ | apply maxima_loop_range ]. simpl. intros p Hp.
  assert (Hdiv : ((i + (i_ahead - 1)) / 2 <= i_ahead - 1)%nat).
  { apply Nat.Div0.div_le_upper_bound. lia. }
  apply Nat.le_lt_trans with (i_ahead - 1)%nat; [ exact Hdiv | lia ].
Qed.

Lemma find_peaks_sorted (x : list Q) (prominence : Q) (distance : nat) :
  StronglySorted lt (find_peaks x prominence distance).
Proof.
  unfold find_peaks. do 2 apply mask_sorted_rel. apply maxima_loop_sorted.
Qed.

Lemma find_peaks_range (x : list Q) (prominence : Q) (distance : nat) :
  Forall (fun p => (p < length x)%nat) (find_peaks x prominence distance).
Proof.
  unfold find_peaks. do 2 apply mask_Forall.
  eapply Forall_impl; [ | apply maxima_loop_range ]. simpl. intros p Hp. lia.
Qed.

(** On a flat profile there is no peak: the detector returns the empty
    sequence. *)
Lemma maxima_loop_flat (c : Q) (n : nat) :
  forall fuel i, maxima_loop (repeat c n) (n - 1) fuel i = [].
Proof.
  induction fuel as [ | fuel IH ]; intros i; simpl; [ reflexivity | ].
  destruct (i <? n - 1)%nat eqn:E; [ | reflexivity ].
  apply Nat.ltb_lt in E.
  replace (Qlt_bool (at_ (repeat c n) (i - 1)) (at_ (repeat c n) i)) with false;
    [ apply IH | ].
  symmetry. unfold Qlt_bool, at_. apply negb_false_iff, Qle_bool_iff.
  rewrite !nth_repeat_lt by lia. apply Qle_refl.
Qed.

Lemma find_peaks_flat (c : Q) (n : nat) (prominence : Q) (distance : nat) :
  find_peaks (repeat c n) prominence distance = [].
Proof.
  unfold find_peaks, local_maxima_1d.
  rewrite repeat_length, maxima_loop_flat. reflexivity.
Qed.

(** ** Indexing and [np.argmax] *)

Lemma take_in_range {A : Type} (a : list A) (d : A) (idx : list nat) :
  Forall (fun i => (i < length a)%nat) idx ->
  take a idx = Ok (map (fun i => nth i a d) idx).
Proof.
  induction idx as [ | i idx IH ]; intros Hr; [ reflexivity | ].
  inversion Hr as [ | ? ? Hi Hrest ]; subst. simpl.
  destruct (nth_error a i) as [ v | ] eqn:E.
  - rewrite (IH Hrest). simpl. f_equal. f_equal.
    symmetry. apply nth_error_nth, E.
  - apply nth_error_None in E. lia.
Qed.

Lemma sorted_nth_rel {A : Type} (R : A -> A -> Prop) (d : A) (l : list A) :
  StronglySorted R l ->
  forall i j, (i < j < length l)%nat -> R (nth i l d) (nth j l d).
Proof.
  induction 1 as [ | a l Hs IH Ha ]; intros i j Hij; simpl in *; [ lia | ].
  destruct j as [ | j ]; [ lia | ].
  destruct i as [ | i ].
  - rewrite Forall_forall in Ha. apply Ha, nth_In. lia.
  - apply IH. lia.
Qed.

Lemma sorted_nth_lt (l : list nat) :
  StronglySorted lt l ->
  forall i j, (i < j < length l)%nat -> (nth i l 0 < nth j l 0)%nat.
Proof. apply sorted_nth_rel. Qed.

(** The scan of [np.argmax], started on the prefix [pre] whose first
    maximum is [mp] at [max_ind], ends on the first maximum of the array. *)
Lemma argmax_loop_spec (ip : list Q) :
  forall (pre : list Q) (mp : Q) (max_ind : nat),
    (max_ind < length pre)%nat ->
    nth max_ind pre 0 = mp ->
    (forall j, (j < length pre)%nat -> nth j pre 0 <= mp) ->
    (forall j, (j < max_ind)%nat -> nth j pre 0 < mp) ->
    let a := pre ++ ip in
    let k := argmax_loop mp max_ind (length pre) ip in
    (k < length a)%nat
    /\ (forall j, (j < length a)%nat -> nth j a 0 <= nth k a 0)
    /\ (forall j, (j < k)%nat -> nth j a 0 < nth k a 0).
Proof.
  induction ip as [ | v ip IH ]; intros pre mp max_ind Hlt Hmp Hle Hfirst; simpl.
  - rewrite app_nil_r, Hmp. auto.
  - assert (Hlen : length (pre ++ [v]) = S (length pre))
      by (rewrite length_app; simpl; lia).
    replace (pre ++ v :: ip) with ((pre ++ [v]) ++ ip)
      by (rewrite <- app_assoc; reflexivity).
    rewrite <- Hlen.
    destruct (Qle_bool v mp) eqn:E; simpl.
    + apply Qle_bool_iff in E.
      apply (IH (pre ++ [v]) mp max_ind).
      * lia.
      * rewrite app_nth1 by exact Hlt. exact Hmp.
      * intros j Hj. destruct (Nat.lt_ge_cases j (length pre)) as [Hj' | Hj'].
        -- rewrite app_nth1 by exact Hj'. auto.
        -- rewrite app_nth2 by exact Hj'.
           replace (j - length pre)%nat with 0%nat by lia. exact E.
      * intros j Hj. rewrite app_nth1 by lia. auto.
    + assert (Hv : mp < v).
      { apply Qnot_le_lt. intros Hc. apply Qle_bool_iff in Hc. congruence. }
      apply (IH (pre ++ [v]) v (length pre)).
      * lia.
      * rewrite app_nth2 by lia. rewrite Nat.sub_diag. reflexivity.
      * intros j Hj. destruct (Nat.lt_ge_cases j (length pre)) as [Hj' | Hj'].
        -- rewrite app_nth1 by exact Hj'. apply Qlt_le_weak.
           eapply Qle_lt_trans; [ apply Hle, Hj' | exact Hv ].
        -- rewrite app_nth2 by exact Hj'.
           replace (j - length pre)%nat with 0%nat by lia. apply Qle_refl.
      * intros j Hj. rewrite app_nth1 by exact Hj.
        eapply Qle_lt_trans; [ apply Hle, Hj | exact Hv ].
Qed.

(** [np.argmax] of a non-empty array is the position of its first
    maximum. *)
Lemma np_argmax_spec (a : list Q) :
  a <> [] ->
  exists k,
    np_argmax a = Ok k
    /\ (k < length a)%nat
    /\ (forall j, (j < length a)%nat -> nth j a 0 <= nth k a 0)
    /\ (forall j, (j < k)%nat -> nth j a 0 < nth k a 0).
Proof.
  destruct a as [ | v a ]; [ congruence | intros _ ].
  eexists. split; [ reflexivity | ].
  apply (@argmax_loop_spec a [v] v 0%nat); simpl.
  - lia.
  - reflexivity.
  - intros j Hj. replace j with 0%nat by lia. apply Qle_refl.
  - intros j Hj. lia.
Qed.

Lemma np_arange_length (n : nat) : length (np_arange n) = n.
Proof. unfold np_arange. rewrite length_map, length_seq. reflexivity. Qed.

Lemma np_arange_nth (n i : nat) (d : fval) :
  (i < n)%nat -> nth i (np_arange n) d = pixel i.
Proof.
  intros Hi. unfold np_arange, pixel.
  rewrite nth_indep with (d' := Fin (inject_Z (Z.of_nat 0)))
    by (rewrite length_map, length_seq; exact Hi).
  rewrite (map_nth (fun i => Fin (inject_Z (Z.of_nat i)))).
  rewrite seq_nth by exact Hi. reflexivity.
Qed.

(** *** Minimum spacing of the accepted peaks *)

Lemma clear_nth (keep : list bool) :
  forall k k',
    nth k' (clear k keep) false
    = if (k' =? k)%nat then false else nth k' keep false.
Proof.
  induction keep as [ | f keep IH ]; intros k k'.
  - replace (clear k []) with (@nil bool) by (destruct k; reflexivity).
    replace (nth k' [] false) with false by (destruct k'; reflexivity).
    destruct (k' =? k)%nat; reflexivity.
  - destruct k as [ | k ], k' as [ | k' ]; simpl; try reflexivity.
    apply IH.
Qed.

Lemma clear_monotone (keep : list bool) (k k' : nat) :
  nth k' (clear k keep) false = true -> nth k' keep false = true.
Proof.
  rewrite clear_nth. destruct (k' =? k)%nat; [ discriminate | auto ].
Qed.

Lemma suppress_left_monotone (peaks : list nat) (distance pj : nat) :
  forall n keep k,
    nth k (suppress_left peaks distance pj n keep) false = true ->
    nth k keep false = true.
Proof.
  induction n as [ | n IH ]; intros keep k; simpl; [ auto | ].
  destruct (Z.of_nat pj - Z.of_nat (nth n peaks 0%nat) <? Z.of_nat distance)%Z; [ | auto ].
  intros H. apply IH in H. eapply clear_monotone, H.
Qed.

Lemma suppress_right_monotone (peaks : list nat) (distance pj : nat) :
  forall fuel k0 keep k,
    nth k (suppress_right peaks distance pj fuel k0 keep) false = true ->
    nth k keep false = true.
Proof.
  induction fuel as [ | fuel IH ]; intros k0 keep k; simpl; [ auto | ].
  destruct ((k0 <? length peaks)%nat
            && (Z.of_nat (nth k0 peaks 0%nat) - Z.of_nat pj <? Z.of_nat distance)%Z);
    [ | auto ].
  intros H. apply IH in H. eapply clear_monotone, H.
Qed.

(** The left loop clears every flag between [k] and [n - 1] when all the
    peaks in between are closer to [pj] than the distance. *)
Lemma suppress_left_clears (peaks : list nat) (distance pj : nat) :
  forall n keep k,
    (k < n)%nat ->
    (forall k', (k <= k' < n)%nat ->
       (Z.of_nat pj - Z.of_nat (nth k' peaks 0%nat) < Z.of_nat distance)%Z) ->
    nth k (suppress_left peaks distance pj n keep) false = false.
Proof.
  induction n as [ | n IH ]; intros keep k Hk Hnear; [ lia | ]. simpl.
  replace (Z.of_nat pj - Z.of_nat (nth n peaks 0%nat) <? Z.of_nat distance)%Z with true
    by (symmetry; apply Z.ltb_lt, Hnear; lia).
  destruct (Nat.eq_dec k n) as [-> | Hne].
  - destruct (nth n (suppress_left peaks distance pj n (clear n keep)) false) eqn:E;
      [ | reflexivity ].
    apply suppress_left_monotone in E. rewrite clear_nth, Nat.eqb_refl in E.
    discriminate E.
  - apply IH; [ lia | ]. intros k' Hk'. apply Hnear. lia.
Qed.

Lemma suppress_right_clears (peaks : list nat) (distance pj : nat) :
  forall fuel k0 keep k,
    (k0 <= k < k0 + fuel)%nat -> (k < length peaks)%nat ->
    (forall k', (k0 <= k' <= k)%nat ->
       (Z.of_nat (nth k' peaks 0%nat) - Z.of_nat pj < Z.of_nat distance)%Z) ->
    nth k (suppress_right peaks distance pj fuel k0 keep) false = false.
Proof.
  induction fuel as [ | fuel IH ]; intros k0 keep k Hk Hlen Hnear; [ lia | ]. simpl.
  replace (k0 <? length peaks)%nat with true by (symmetry; apply Nat.ltb_lt; lia).
  replace (Z.of_nat (nth k0 peaks 0%nat) - Z.of_nat pj <? Z.of_nat distance)%Z with true
    by (symmetry; apply Z.ltb_lt, Hnear; lia).
  cbn [andb].
  destruct (Nat.eq_dec k k0) as [-> | Hne].
  - destruct (nth k0 (suppress_right peaks distance pj fuel (S k0) (clear k0 keep)) false)
      eqn:E; [ | reflexivity ].
    apply suppress_right_monotone in E. rewrite clear_nth, Nat.eqb_refl in E.
    discriminate E.
  - apply IH; [ lia | exact Hlen | ]. intros k' Hk'. apply Hnear. lia.
Qed.

Lemma suppress_round_monotone (peaks : list nat) (distance : nat)
  (keep : list bool) (j k : nat) :
  nth k (suppress_round peaks distance keep j) false = true ->
  nth k keep false = true.
Proof.
  unfold suppress_round. destruct (nth j keep false); [ | auto ].
  intros H. apply suppress_right_monotone, suppress_left_monotone in H. exact H.
Qed.

Lemma sorted_nth_le (l : list nat) :
  StronglySorted lt l ->
  forall i j, (i <= j < length l)%nat -> (nth i l 0 <= nth j l 0)%nat.
Proof.
  intros Hs i j Hij. destruct (Nat.eq_dec i j) as [-> | Hne]; [ lia | ].
  apply Nat.lt_le_incl, sorted_nth_lt; [ exact Hs | lia ].
Qed.

Lemma suppress_round_clears (peaks : list nat) (distance : nat)
  (keep : list bool) (j k : nat) :
  StronglySorted lt peaks ->
  (j < length peaks)%nat -> (k < length peaks)%nat -> k <> j ->
  nth j keep false = true ->
  (Z.abs (Z.of_nat (nth k peaks O) - Z.of_nat (nth j peaks O)) < Z.of_nat distance)%Z ->
  nth k (suppress_round peaks distance keep j) false = false.
Proof.
  intros Hs Hj Hk Hne Hkept Hnear. unfold suppress_round. rewrite Hkept.
  destruct (Nat.lt_ge_cases k j) as [Hlt | Hge].
  - destruct (nth k (suppress_right peaks distance (nth j peaks 0%nat)
                       (length peaks - S j) (S j)
                       (suppress_left peaks distance (nth j peaks 0%nat) j keep)) false)
      eqn:E; [ | reflexivity ].
    apply suppress_right_monotone in E.
    rewrite suppress_left_clears in E; [ discriminate E | exact Hlt | ].
    intros k' Hk'.
    pose proof (@sorted_nth_le peaks Hs k k' ltac:(lia)).
    pose proof (@sorted_nth_lt peaks Hs k' j ltac:(lia)). lia.
  - apply suppress_right_clears; [ lia | exact Hk | ].
    intros k' Hk'.
    pose proof (@sorted_nth_le peaks Hs k' k ltac:(lia)).
    pose proof (@sorted_nth_lt peaks Hs j k' ltac:(lia)). lia.
Qed.

Lemma suppress_rounds (peaks : list nat) (distance : nat) :
  StronglySorted lt peaks ->
  forall order keep,
    let final := fold_left (suppress_round peaks distance) order keep in
    (forall k, nth k final false = true -> nth k keep false = true)
    /\ (forall j k, In j order ->
          (j < length peaks)%nat -> (k < length peaks)%nat -> k <> j ->
          nth j final false = true ->
          (Z.abs (Z.of_nat (nth k peaks O) - Z.of_nat (nth j peaks O))
           < Z.of_nat distance)%Z ->
          nth k final false = false).
Proof.
  intros Hs. induction order as [ | j0 order IH ]; intros keep; simpl.
  - split; [ auto | intros j k [] ].
  - destruct (IH (suppress_round peaks distance keep j0)) as [Hmono Hclear].
    split.
    + intros k H. apply Hmono in H. eapply suppress_round_monotone, H.
    + intros j k [-> | Hin] Hj Hk Hne Hkept Hnear.
      * destruct (nth k (fold_left (suppress_round peaks distance) order
                           (suppress_round peaks distance keep j)) false) eqn:E;
          [ | reflexivity ].
        apply Hmono in E. apply Hmono, suppress_round_monotone in Hkept.
        rewrite (@suppress_round_clears peaks distance keep j k) in E; auto.
      * apply (Hclear j k); auto.
Qed.

Lemma insert_by_In (key : nat -> Q) (i j : nat) (sorted : list nat) :
  In j (insert_by key i sorted) <-> j = i \/ In j sorted.
Proof.
  induction sorted as [ | j' rest IH ]; simpl.
  - intuition.
  - destruct (Qlt_bool (key i) (key j')); simpl; [ intuition | ].
    rewrite IH. intuition.
Qed.

Lemma np_argsort_In (a : list Q) (j : nat) :
  In j (np_argsort a) <-> (j < length a)%nat.
Proof.
  unfold np_argsort.
  assert (H : forall l, In j (fold_right (insert_by (at_ a)) [] l) <-> In j l).
  { induction l as [ | i l IH ]; simpl; [ tauto | ].
    rewrite insert_by_In, IH. intuition. }
  rewrite H, in_seq. lia.
Qed.

(** Two peaks that are both kept lie at least the distance apart. *)
Lemma select_by_peak_distance_spaced (peaks : list nat) (priority : list Q)
  (distance : nat) :
  StronglySorted lt peaks -> length priority = length peaks ->
  let keep := select_by_peak_distance peaks priority distance in
  forall i j, (i < j < length peaks)%nat ->
    nth i keep false = true -> nth j keep false = true ->
    (nth i peaks O + distance <= nth j peaks O)%nat.
Proof.
  intros Hs Hlen keep i j Hij Hi Hj.
  destruct (Nat.lt_ge_cases (nth j peaks 0) (nth i peaks 0 + distance))%nat
    as [Hnear | Hfar]; [ exfalso | exact Hfar ].
  pose proof (@sorted_nth_lt peaks Hs i j Hij) as Hlt.
  destruct (@suppress_rounds peaks distance Hs (rev (np_argsort priority))
              (repeat true (length peaks))) as [_ Hclear].
  change (fold_left (suppress_round peaks distance) (rev (np_argsort priority))
            (repeat true (length peaks))) with keep in Hclear.
  rewrite (Hclear i j) in Hj; [ discriminate Hj | | lia | lia | lia | exact Hi | lia ].
  rewrite <- in_rev, np_argsort_In. lia.
Qed.

Lemma mask_Forall_flags {A : Type} (P : A -> Prop) (d : A) (a : list A) :
  forall keep,
    (forall j, (j < length a)%nat -> nth j keep false = true -> P (nth j a d)) ->
    Forall P (mask keep a).
Proof.
  induction a as [ | v a IH ]; intros keep H.
  - destruct keep; constructor.
  - destruct keep as [ | f keep ]; [ constructor | ].
    assert (Hrest : Forall P (mask keep a)).
    { apply IH. intros j Hj Hk. apply (H (S j)); simpl; [ lia | exact Hk ]. }
    destruct f; simpl; [ | exact Hrest ].
    constructor; [ | exact Hrest ]. apply (H 0%nat); simpl; [ lia | reflexivity ].
Qed.

(** The kept elements are pairwise related when the flags only keep
    related pairs. *)
Lemma mask_sorted_flags {A : Type} (R : A -> A -> Prop) (d : A) (a : list A) :
  forall keep,
    (forall i j, (i < j < length a)%nat ->
       nth i keep false = true -> nth j keep false = true ->
       R (nth i a d) (nth j a d)) ->
    StronglySorted R (mask keep a).
Proof.
  induction a as [ | v a IH ]; intros keep H.
  - destruct keep; constructor.
  - destruct keep as [ | f keep ]; [ constructor | ].
    assert (Hrest : StronglySorted R (mask keep a)).
    { apply IH. intros i j Hij Hi Hj. apply (H (S i) (S j)); simpl; auto; lia. }
    destruct f; simpl; [ | exact Hrest ].
    constructor; [ exact Hrest | ].
    apply mask_Forall_flags with (d := d). intros j Hj Hk.
    apply (H 0%nat (S j)); simpl; auto; lia.
Qed.

(** Two detected peaks are at least [distance] samples apart. *)
Lemma find_peaks_spaced (x : list Q) (prominence : Q) (distance : nat) :
  StronglySorted (fun p q => (p + distance <= q)%nat)
    (find_peaks x prominence distance).
Proof.
  unfold find_peaks. apply mask_sorted_rel.
  apply mask_sorted_flags with (d := 0%nat).
  apply select_by_peak_distance_spaced.
  - apply maxima_loop_sorted.
  - apply length_map.
Qed.

(** ** The calibration *)

Lemma shifted_peak_lt (peaks : list nat) (offset : Z) (i j : nat) :
  StronglySorted lt peaks -> (i < j < length peaks)%nat ->
  shifted_peak peaks offset i < shifted_peak peaks offset j.
Proof.
  intros Hs Hij. unfold shifted_peak.
  pose proof (sorted_nth_lt Hs Hij) as Hlt.
  rewrite <- Zlt_Qlt. lia.
Qed.

Lemma shifted_peak_spaced (peaks : list nat) (offset : Z) (distance i j : nat) :
  StronglySorted (fun p q => (p + distance <= q)%nat) peaks ->
  (i < j < length peaks)%nat ->
  shifted_peak peaks offset i + inject_Z (Z.of_nat distance)
  <= shifted_peak peaks offset j.
Proof.
  intros Hs Hij. unfold shifted_peak.
  pose proof (@sorted_nth_rel nat _ O peaks Hs i j Hij) as Hle. cbv beta in Hle.
  rewrite <- inject_Z_plus, <- Zle_Qle. lia.
Qed.

(** The body of the calibration, once the position [k] of the brightest
    peak is known. *)
Lemma wavelength_from_peaks_at (intensity : list Q) (peaks : list nat)
  (offset : Z) (k : nat) :
  Forall (fun p => (p < length intensity)%nat) peaks ->
  np_argmax (map (at_ intensity) peaks) = Ok k ->
  (k < length peaks)%nat -> (2 <= length peaks)%nat ->
  wavelength_from_peaks intensity peaks offset =
    if (k =? 0)%nat then
      calibrated_axis (shifted_peak peaks offset 0) (shifted_peak peaks offset 1)
        He_588 He_669 (length intensity)
    else
      calibrated_axis (shifted_peak peaks offset (k - 1)) (shifted_peak peaks offset k)
        He_502 He_588 (length intensity).
Proof.
  intros Hr Hk Hlt Hlen. unfold wavelength_from_peaks.
  rewrite (take_in_range intensity 0 Hr).
  change (map (fun i => nth i intensity 0) peaks) with (map (at_ intensity) peaks).
  cbn [bind]. rewrite Hk. cbn [bind].
  destruct (k =? 0)%nat eqn:E.
  - destruct peaks as [ | p0 [ | p1 rest ] ]; simpl in Hlen; try lia.
    reflexivity.
  - apply Nat.eqb_neq in E.
    assert (Hidx : Forall (fun i => (i < length peaks)%nat) [(k - 1)%nat; k])
      by (repeat constructor; lia).
    rewrite (take_in_range peaks 0%nat Hidx). reflexivity.
Qed.

(** The branch taken by the calibration and the anchors it fits on. *)
Lemma anchors_of_brightest_peak (intensity : list Q) (peaks : list nat) (offset : Z) :
  (2 <= length peaks)%nat ->
  StronglySorted lt peaks ->
  Forall (fun p => (p < length intensity)%nat) peaks ->
  exists k,
    np_argmax (map (at_ intensity) peaks) = Ok k
    /\ (k < length peaks)%nat
    /\ (forall j, (j < length peaks)%nat ->
          at_ intensity (nth j peaks O) <= at_ intensity (nth k peaks O))
    /\ (forall j, (j < k)%nat ->
          at_ intensity (nth j peaks O) < at_ intensity (nth k peaks O))
    /\ (k = 0%nat ->
          shifted_peak peaks offset 0 < shifted_peak peaks offset 1
          /\ wavelength_from_peaks intensity peaks offset =
               calibrated_axis (shifted_peak peaks offset 0)
                 (shifted_peak peaks offset 1) He_588 He_669 (length intensity))
    /\ ((0 < k)%nat ->
          shifted_peak peaks offset (k - 1) < shifted_peak peaks offset k
          /\ wavelength_from_peaks intensity peaks offset =
               calibrated_axis (shifted_peak peaks offset (k - 1))
                 (shifted_peak peaks offset k) He_502 He_588 (length intensity)).
Proof.
  intros Hlen Hs Hr.
  assert (Hne : map (at_ intensity) peaks <> []).
  { destruct peaks; simpl in *; [ lia | discriminate ]. }
  destruct (np_argmax_spec Hne) as (k & Hk & Hlt & Hmax & Hfirst).
  rewrite length_map in Hlt, Hmax.
  assert (Hnth : forall j, (j < length peaks)%nat ->
            nth j (map (at_ intensity) peaks) 0 = at_ intensity (nth j peaks 0%nat)).
  { intros j Hj.
    rewrite nth_indep with (d' := at_ intensity 0%nat)
      by (rewrite length_map; exact Hj).
    apply (map_nth (at_ intensity)). }
  exists k. split; [ exact Hk | ]. split; [ exact Hlt | ].
  split; [ intros j Hj; rewrite <- !Hnth by assumption; auto | ].
  split; [ intros j Hj; rewrite <- !Hnth by lia; auto | ].
  pose proof (@wavelength_from_peaks_at intensity peaks offset k Hr Hk Hlt Hlen) as Hbody.
  split.
  - intros ->. split; [ apply shifted_peak_lt; [ exact Hs | lia ] | exact Hbody ].
  - intros Hpos. split; [ apply shifted_peak_lt; [ exact Hs | lia ] | ].
    rewrite Hbody. destruct k; [ lia | reflexivity ].
Qed.

(** C2: on a detected peak sequence with at least two peaks, let [k] be
    the list index of the peak of maximal intensity.  If [k = 0] the fit
    uses peaks[0] and peaks[1], in ascending pixel order, bound to 588.87
    and 669.07; if [k > 0] it uses peaks[k-1] and peaks[k], in ascending
    pixel order, bound to 502.60 and 588.87. *)
Theorem branch_selection (intensity : list Q) (peaks : list nat) (offset : Z) :
  (2 <= length peaks)%nat ->
  StronglySorted lt peaks ->
  Forall (fun p => (p < length intensity)%nat) peaks ->
  exists k,
    np_argmax (map (at_ intensity) peaks) = Ok k
    /\ (k < length peaks)%nat
    /\ (forall j, (j < length peaks)%nat ->
          at_ intensity (nth j peaks O) <= at_ intensity (nth k peaks O))
    /\ (forall j, (j < k)%nat ->
          at_ intensity (nth j peaks O) < at_ intensity (nth k peaks O))
    /\ (k = 0%nat ->
          shifted_peak peaks offset 0 < shifted_peak peaks offset 1
          /\ wavelength_from_peaks intensity peaks offset =
               calibrated_axis (shifted_peak peaks offset 0)
                 (shifted_peak peaks offset 1) He_588 He_669 (length intensity))
    /\ ((0 < k)%nat ->
          shifted_peak peaks offset (k - 1) < shifted_peak peaks offset k
          /\ wavelength_from_peaks intensity peaks offset =
               calibrated_axis (shifted_peak peaks offset (k - 1))
                 (shifted_peak peaks offset k) He_502 He_588 (length intensity)).
Proof.
  apply anchors_of_brightest_peak.
Qed.

Lemma branch_selection_witness :
  let intensity := [0; 5; 0; 0; 9; 0; 3; 0] in
  let peaks := [1; 4; 6]%nat in
  (2 <= length peaks)%nat
  /\ StronglySorted lt peaks
  /\ Forall (fun p => (p < length intensity)%nat) peaks
  /\ exists k,
       np_argmax (map (at_ intensity) peaks) = Ok k
       /\ (k < length peaks)%nat
       /\ (forall j, (j < length peaks)%nat ->
             at_ intensity (nth j peaks O) <= at_ intensity (nth k peaks O))
       /\ (forall j, (j < k)%nat ->
             at_ intensity (nth j peaks O) < at_ intensity (nth k peaks O))
       /\ (k = 0%nat ->
             shifted_peak peaks 2 0 < shifted_peak peaks 2 1
             /\ wavelength_from_peaks intensity peaks 2 =
                  calibrated_axis (shifted_peak peaks 2 0)
                    (shifted_peak peaks 2 1) He_588 He_669 (length intensity))
       /\ ((0 < k)%nat ->
             shifted_peak peaks 2 (k - 1) < shifted_peak peaks 2 k
             /\ wavelength_from_peaks intensity peaks 2 =
                  calibrated_axis (shifted_peak peaks 2 (k - 1))
                    (shifted_peak peaks 2 k) He_502 He_588 (length intensity)).
Proof.
  intros intensity peaks.
  assert (Hlen : (2 <= length peaks)%nat) by (simpl; lia).
  assert (Hs : StronglySorted lt peaks) by (repeat constructor).
  assert (Hr : Forall (fun p => (p < length intensity)%nat) peaks)
    by (repeat constructor; simpl; lia).
  split; [ exact Hlen | ]. split; [ exact Hs | ]. split; [ exact Hr | ].
  exact (@branch_selection intensity peaks 2 Hlen Hs Hr).
Defined.

(** *** Monotonicity of the calibrated axis *)

Lemma call_finite (mq bq : Q) (i : nat) :
  call (Transform (Fin mq) (Fin bq)) (pixel i)
  = Fin (mq * inject_Z (Z.of_nat i) + bq).
Proof. reflexivity. Qed.

Lemma map_call_nth (t : transform) (n i : nat) (d : fval) :
  (i < n)%nat -> nth i (map (call t) (np_arange n)) d = call t (pixel i).
Proof.
  intros Hi.
  rewrite nth_indep with (d' := call t d)
    by (rewrite length_map, np_arange_length; exact Hi).
  rewrite (map_nth (call t)). f_equal. apply np_arange_nth, Hi.
Qed.

Lemma positive_slope_increasing (mq bq : Q) (n : nat) :
  0 < mq ->
  strictly_increasing (map (call (Transform (Fin mq) (Fin bq))) (np_arange n)).
Proof.
  intros Hm i j Hij. rewrite length_map, np_arange_length in Hij.
  rewrite !map_call_nth by lia. rewrite !call_finite. simpl.
  apply Qplus_lt_l, Qmult_lt_l; [ exact Hm | ].
  rewrite <- Zlt_Qlt. lia.
Qed.

(** Fitting on ascending anchors bound to ascending wavelengths gives a
    finite, strictly positive slope and a strictly increasing axis. *)
Lemma calibrated_axis_increasing (x0 x1 y0 y1 : Q) (width : nat) :
  x0 < x1 -> y0 < y1 ->
  exists mq bq,
    0 < mq
    /\ get_linear_transformation NpScalar x0 x1 y0 y1 = Ok (Transform (Fin mq) (Fin bq))
    /\ calibrated_axis x0 x1 y0 y1 width
       = Ok (map (call (Transform (Fin mq) (Fin bq))) (np_arange width))
    /\ strictly_increasing (map (call (Transform (Fin mq) (Fin bq))) (np_arange width)).
Proof.
  intros Hx Hy.
  assert (Hne : ~ x0 == x1) by (intros E; lra).
  assert (Hm : 0 < (y1 - y0) / (x1 - x0)).
  { apply Qlt_shift_div_l; lra. }
  do 2 eexists. split; [ exact Hm | ]. split; [ | split ].
  - apply get_linear_transformation_distinct, Hne.
  - unfold calibrated_axis.
    rewrite (get_linear_transformation_distinct NpScalar y0 y1 Hne). reflexivity.
  - apply positive_slope_increasing, Hm.
Qed.

Lemma He_lines_ascending : He_502 < He_588 /\ He_588 < He_669.
Proof. split; reflexivity. Qed.

(** With two peaks or more, in ascending order, [distance] apart and
    inside the profile, the calibration succeeds with a positive slope. *)
Lemma wavelength_from_peaks_increasing (intensity : list Q) (peaks : list nat)
  (offset : Z) (distance : nat) :
  (2 <= length peaks)%nat ->
  StronglySorted lt peaks ->
  StronglySorted (fun p q => (p + distance <= q)%nat) peaks ->
  Forall (fun p => (p < length intensity)%nat) peaks ->
  exists x0 x1 y0 y1 mq bq,
    x0 + inject_Z (Z.of_nat distance) <= x1
    /\ x0 < x1 /\ y0 < y1 /\ 0 < mq
    /\ get_linear_transformation NpScalar x0 x1 y0 y1 = Ok (Transform (Fin mq) (Fin bq))
    /\ wavelength_from_peaks intensity peaks offset
       = Ok (map (call (Transform (Fin mq) (Fin bq))) (np_arange (length intensity)))
    /\ strictly_increasing
         (map (call (Transform (Fin mq) (Fin bq))) (np_arange (length intensity))).
Proof.
  intros Hlen Hs Hsp Hr.
  destruct (@anchors_of_brightest_peak intensity peaks offset Hlen Hs Hr)
    as (k & _ & Hk & _ & _ & Hzero & Hpos).
  destruct He_lines_ascending as [H1 H2].
  destruct k as [ | k ].
  - destruct (Hzero eq_refl) as [Hx Hbody].
    destruct (@calibrated_axis_increasing _ _ _ _ (length intensity) Hx H2)
      as (mq & bq & Hm & Hfit & Haxis & Hinc).
    exists (shifted_peak peaks offset 0), (shifted_peak peaks offset 1),
      He_588, He_669, mq, bq.
    rewrite Hbody.
    split; [ apply shifted_peak_spaced; [ exact Hsp | lia ] | auto 10 ].
  - destruct (Hpos ltac:(lia)) as [Hx Hbody].
    destruct (@calibrated_axis_increasing _ _ _ _ (length intensity) Hx H1)
      as (mq & bq & Hm & Hfit & Haxis & Hinc).
    exists (shifted_peak peaks offset (S k - 1)), (shifted_peak peaks offset (S k)),
      He_502, He_588, mq, bq.
    rewrite Hbody.
    split; [ apply shifted_peak_spaced; [ exact Hsp | lia ] | auto 10 ].
Qed.

Lemma calibration_increasing (He : image) (offset : Z) :
  (2 <= length (find_peaks (get_column_intensity He) 10 20))%nat ->
  exists x0 x1 y0 y1 mq bq wl,
    x0 + 20 <= x1 /\ x0 < x1 /\ y0 < y1 /\ 0 < mq
    /\ get_linear_transformation NpScalar x0 x1 y0 y1 = Ok (Transform (Fin mq) (Fin bq))
    /\ get_wavelength_from_He He offset = Ok wl
    /\ wl = map (call (Transform (Fin mq) (Fin bq)))
              (np_arange (length (get_column_intensity He)))
    /\ strictly_increasing wl.
Proof.
  intros Hlen. unfold get_wavelength_from_He.
  destruct (@wavelength_from_peaks_increasing (get_column_intensity He)
              (find_peaks (get_column_intensity He) 10 20) offset 20 Hlen
              (find_peaks_sorted _ _ _) (find_peaks_spaced _ _ _)
              (find_peaks_range _ _ _))
    as (x0 & x1 & y0 & y1 & mq & bq & Hsp & Hx & Hy & Hm & Hfit & Hbody & Hinc).
  exists x0, x1, y0, y1, mq, bq. eexists.
  split; [ exact Hsp | ].
  repeat (split; [ eassumption | ]). split; [ reflexivity | exact Hinc ].
Qed.



(** ** Too few peaks *)

Lemma few_peaks_error (He : image) (offset : Z) :
  (length (find_peaks (get_column_intensity He) 10 20) < 2)%nat ->
  get_wavelength_from_He He offset =
    Raise (ValueError
             (match find_peaks (get_column_intensity He) 10 20 with
              | [] => ArgmaxOfEmptySequence
              | _ => NotEnoughValuesToUnpack
              end)).
Proof.
  intros Hlen. unfold get_wavelength_from_He.
  pose proof (find_peaks_range (get_column_intensity He) 10 20) as Hr.
  destruct (find_peaks (get_column_intensity He) 10 20) as [ | p [ | q rest ] ];
    [ reflexivity | | simpl in Hlen; lia ].
  unfold wavelength_from_peaks.
  rewrite (take_in_range (get_column_intensity He) 0 Hr). reflexivity.
Qed.

Lemma few_peaks_raises (He : image) (offset : Z) :
  (length (find_peaks (get_column_intensity He) 10 20) < 2)%nat ->
  raises (get_wavelength_from_He He offset).
Proof.
  intros Hlen. eexists. apply few_peaks_error, Hlen.
Qed.

(** C5: when the profile of the calibration image yields fewer than two
    detected peaks, the calibration raises an error instead of returning
    a transform ([np.argmax] on no peak, the unpacking of [x0, x1] on one
    peak); and an empty peak sequence is a regular result of the
    detector, the one it returns on a flat profile. *)
Theorem too_few_peaks_raise (He : image) (offset : Z) :
  (length (find_peaks (get_column_intensity He) 10 20) < 2)%nat ->
  get_wavelength_from_He He offset =
    Raise (ValueError
             (match find_peaks (get_column_intensity He) 10 20 with
              | [] => ArgmaxOfEmptySequence
              | _ => NotEnoughValuesToUnpack
              end))
  /\ raises (get_wavelength_from_He He offset)
  /\ forall c n prominence distance, find_peaks (repeat c n) prominence distance = [].
Proof.
  intros Hlen.
  split; [ apply few_peaks_error, Hlen | ].
  split; [ apply few_peaks_raises, Hlen | ].
  intros c n prominence distance. apply find_peaks_flat.
Qed.

Lemma too_few_peaks_raise_witness :
  let He := synthetic_image 150 in
  (length (find_peaks (get_column_intensity He) 10 20) < 2)%nat
  /\ get_wavelength_from_He He 0 =
       Raise (ValueError
                (match find_peaks (get_column_intensity He) 10 20 with
                 | [] => ArgmaxOfEmptySequence
                 | _ => NotEnoughValuesToUnpack
                 end))
  /\ raises (get_wavelength_from_He He 0)
  /\ forall c n prominence distance, find_peaks (repeat c n) prominence distance = [].
Proof.
  intros He.
  assert (Hlen : (length (find_peaks (get_column_intensity He) 10 20) < 2)%nat)
    by (vm_compute; lia).
  split; [ exact Hlen | exact (@too_few_peaks_raise He 0 Hlen) ].
Defined.

(** ** [get_spectrum] *)








(** A successful calibration has found at least two peaks. *)
Lemma calibration_ok_two_peaks (He : image) (offset : Z) (wl : list fval) :
  get_wavelength_from_He He offset = Ok wl ->
  (2 <= length (find_peaks (get_column_intensity He) 10 20))%nat.
Proof.
  intros Hok.
  destruct (Nat.lt_ge_cases (length (find_peaks (get_column_intensity He) 10 20)) 2)
    as [Hlt | Hge]; [ | exact Hge ].
  destruct (@few_peaks_raises He offset Hlt) as [e He'].
  congruence.
Qed.




(** ** The scan for local maxima, step by step *)

Lemma local_maxima_1d_from (x : list Q) :
  local_maxima_1d x = maxima_from x (length x - 1) 1.
Proof.
  unfold local_maxima_1d, maxima_from. apply maxima_loop_fuel; lia.
Qed.

(** Samples that do not rise above their left neighbour are passed over. *)
Lemma maxima_from_skip (x : list Q) (i_max : nat) :
  forall n i,
    (forall j, (i <= j < i + n)%nat -> rises x j = false) ->
    (i + n <= i_max)%nat ->
    maxima_from x i_max i = maxima_from x i_max (i + n).
Proof.
  unfold maxima_from.
  induction n as [ | n IH ]; intros i Hflat Hle.
  - rewrite Nat.add_0_r. reflexivity.
  - replace (i_max - i)%nat with (S (i_max - S i)) by lia.
    cbn [maxima_loop].
    replace (i <? i_max)%nat with true by (symmetry; apply Nat.ltb_lt; lia).
    fold (rises x i). rewrite (Hflat i) by lia.
    replace (i + S n)%nat with (S i + n)%nat by lia.
    apply IH; [ | lia ].
    intros j Hj. apply Hflat. lia.
Qed.

(** Without a rise up to the end, no maximum is left. *)
Lemma maxima_from_end (x : list Q) (i_max : nat) :
  forall fuel i,
    (forall j, (i <= j < i_max)%nat -> rises x j = false) ->
    maxima_loop x i_max fuel i = [].
Proof.
  induction fuel as [ | fuel IH ]; intros i Hflat; [ reflexivity | ].
  cbn [maxima_loop].
  destruct (i <? i_max)%nat eqn:E; [ | reflexivity ].
  apply Nat.ltb_lt in E.
  fold (rises x i). rewrite (Hflat i) by lia.
  apply IH. intros j Hj. apply Hflat. lia.
Qed.

(** A sample above both neighbours is a maximum; the scan resumes two
    samples further. *)
Lemma maxima_from_peak (x : list Q) (i_max i : nat) :
  (i < i_max)%nat ->
  rises x i = true ->
  Qeq_bool (at_ x (S i)) (at_ x i) = false ->
  Qlt_bool (at_ x (S i)) (at_ x i) = true ->
  maxima_from x i_max i = i :: maxima_from x i_max (S (S i)).
Proof.
  intros Hi Hrise Hne Hfall. unfold maxima_from.
  replace (i_max - i)%nat with (S (i_max - S i)) by lia.
  cbn [maxima_loop].
  replace (i <? i_max)%nat with true by (symmetry; apply Nat.ltb_lt; lia).
  fold (rises x i). rewrite Hrise.
  assert (Hahead : look_ahead x i i_max (i_max - S i) (S i) = S i).
  { destruct (i_max - S i)%nat; [ reflexivity | ].
    cbn [look_ahead]. rewrite Hne, andb_false_r. reflexivity. }
  rewrite Hahead, Hfall.
  replace ((i + (S i - 1)) / 2)%nat with i.
  - f_equal. apply maxima_loop_fuel; lia.
  - replace (i + (S i - 1))%nat with (i * 2)%nat by lia.
    symmetry. apply Nat.div_mul. discriminate.
Qed.

(** ** Prominence of a peak above its two neighbours *)

Lemma Qlt_bool_iff (p q : Q) : Qlt_bool p q = true <-> p < q.
Proof.
  unfold Qlt_bool. rewrite negb_true_iff. split.
  - intros H. apply Qnot_le_lt. intros Hle. apply Qle_bool_iff in Hle. congruence.
  - intros H. destruct (Qle_bool q p) eqn:E; [ | reflexivity ].
    apply Qle_bool_iff in E. exfalso. apply (Qlt_not_le _ _ H E).
Qed.

Lemma lower_of_le (v lowest : Q) :
  (if Qlt_bool v lowest then v else lowest) <= lowest
  /\ (if Qlt_bool v lowest then v else lowest) <= v.
Proof.
  destruct (Qlt_bool v lowest) eqn:E.
  - apply Qlt_bool_iff in E. split; [ apply Qlt_le_weak, E | apply Qle_refl ].
  - split; [ apply Qle_refl | ].
    apply Qnot_lt_le. intros H. apply Qlt_bool_iff in H. congruence.
Qed.

Lemma left_min_le (x : list Q) (xp : Q) :
  forall n lowest, left_min x xp n lowest <= lowest.
Proof.
  induction n as [ | i IH ]; intros lowest; simpl; [ apply Qle_refl | ].
  destruct (Qle_bool (at_ x i) xp); [ | apply Qle_refl ].
  eapply Qle_trans; [ apply IH | apply lower_of_le ].
Qed.

Lemma right_min_le (x : list Q) (xp : Q) :
  forall fuel i lowest, right_min x xp fuel i lowest <= lowest.
Proof.
  induction fuel as [ | fuel IH ]; intros i lowest; simpl; [ apply Qle_refl | ].
  destruct ((i <? length x)%nat && Qle_bool (at_ x i) xp); [ | apply Qle_refl ].
  eapply Qle_trans; [ apply IH | apply lower_of_le ].
Qed.

Lemma Qmax_le (p q p' q' : Q) : p <= p' -> q <= q' -> Qmax p q <= Qmax p' q'.
Proof.
  intros Hp Hq. unfold Qmax.
  destruct (Qlt_bool p q) eqn:E; destruct (Qlt_bool p' q') eqn:E'.
  - exact Hq.
  - eapply Qle_trans; [ exact Hq | ].
    apply Qnot_lt_le. intros H. apply Qlt_bool_iff in H. congruence.
  - eapply Qle_trans; [ exact Hp | ].
    apply Qlt_le_weak, Qlt_bool_iff, E'.
  - exact Hp.
Qed.

(** The prominence of a peak is at least its height above the higher of
    its two neighbours. *)
Lemma peak_prominence_lower_bound (x : list Q) (p : nat) :
  (0 < p)%nat -> (S p < length x)%nat ->
  at_ x (p - 1) <= at_ x p -> at_ x (S p) <= at_ x p ->
  at_ x p - Qmax (at_ x (p - 1)) (at_ x (S p)) <= peak_prominence x p.
Proof.
  intros Hp Hlen Hl Hr. unfold peak_prominence.
  set (xp := at_ x p) in *.
  assert (Hself : Qle_bool xp xp = true) by (apply Qle_bool_iff, Qle_refl).
  assert (Hlow : (if Qlt_bool xp xp then xp else xp) = xp)
    by (destruct (Qlt_bool xp xp); reflexivity).
  assert (Hleft : left_min x xp (S p) xp <= at_ x (p - 1)).
  { cbn [left_min]. fold xp. rewrite Hself, Hlow.
    destruct p as [ | p' ]; [ lia | ].
    replace (S p' - 1)%nat with p' in * by lia.
    cbn [left_min].
    replace (Qle_bool (at_ x p') xp) with true by (symmetry; apply Qle_bool_iff, Hl).
    eapply Qle_trans; [ apply left_min_le | apply lower_of_le ]. }
  assert (Hright : right_min x xp (length x - p) p xp <= at_ x (S p)).
  { replace (length x - p)%nat with (S (S (length x - S (S p)))) by lia.
    cbn [right_min]. fold xp. rewrite Hself, Hlow.
    replace (p <? length x)%nat with true by (symmetry; apply Nat.ltb_lt; lia).
    replace (S p <? length x)%nat with true by (symmetry; apply Nat.ltb_lt; lia).
    replace (Qle_bool (at_ x (S p)) xp) with true by (symmetry; apply Qle_bool_iff, Hr).
    cbn [andb].
    eapply Qle_trans; [ apply right_min_le | apply lower_of_le ]. }
  pose proof (Qmax_le Hleft Hright) as Hmax.
  apply Qplus_le_r, Qopp_le_compat, Hmax.
Qed.

(** ** The synthetic two-peak image *)

Lemma add_row_zero (row : list Z) :
  Forall (fun r => (0 <= r < 2 ^ 64)%Z) row ->
  add_row (repeat 0%Z (length row)) row = row.
Proof.
  unfold add_row.
  induction 1 as [ | r row Hr Hrow IH ]; simpl; [ reflexivity | ].
  rewrite IH. f_equal. unfold u64. apply Z.mod_small. exact Hr.
Qed.

Lemma synthetic_pixel_cases (j : nat) :
  (j = 100%nat /\ synthetic_pixel j = 50%Z)
  \/ (j = 300%nat /\ synthetic_pixel j = 80%Z)
  \/ (j <> 100%nat /\ j <> 300%nat /\ synthetic_pixel j = 0%Z).
Proof.
  unfold synthetic_pixel.
  destruct (j =? 100)%nat eqn:E1; [ apply Nat.eqb_eq in E1; auto | ].
  destruct (j =? 300)%nat eqn:E2; [ apply Nat.eqb_eq in E2; auto | ].
  apply Nat.eqb_neq in E1, E2. auto.
Qed.

Lemma synthetic_profile_eq (width : nat) :
  synthetic_profile width = map synthetic_value (seq 0 width).
Proof.
  unfold synthetic_profile, get_column_intensity, synthetic_image, np_sum_axis0.
  cbn [fold_left shape1 shape0 length].
  rewrite add_row_zero.
  - unfold synthetic_row. rewrite map_map. reflexivity.
  - unfold synthetic_row. apply Forall_forall. intros r Hin.
    apply in_map_iff in Hin. destruct Hin as (j & <- & _).
    destruct (synthetic_pixel_cases j) as [[_ ->] | [[_ ->] | (_ & _ & ->)]]; lia.
Qed.

Lemma synthetic_profile_length (width : nat) :
  length (synthetic_profile width) = width.
Proof. rewrite synthetic_profile_eq, length_map, length_seq. reflexivity. Qed.

Lemma synthetic_at (width j : nat) :
  (j < width)%nat -> at_ (synthetic_profile width) j = synthetic_value j.
Proof.
  intros Hj. unfold at_. rewrite synthetic_profile_eq.
  rewrite nth_indep with (d' := synthetic_value 0)
    by (rewrite length_map, length_seq; exact Hj).
  rewrite (map_nth synthetic_value), seq_nth by exact Hj. reflexivity.
Qed.

Lemma synthetic_value_dark (j : nat) :
  j <> 100%nat -> j <> 300%nat -> synthetic_value j = 0 / 1.
Proof.
  intros H1 H2. unfold synthetic_value.
  destruct (synthetic_pixel_cases j) as [[E _] | [[E _] | (_ & _ & ->)]];
    [ contradiction | contradiction | reflexivity ].
Qed.

(** Away from the columns 100, 101, 300 and 301 the profile does not rise. *)
Lemma synthetic_no_rise (width j : nat) :
  (0 < j < width)%nat ->
  j <> 100%nat -> j <> 300%nat ->
  rises (synthetic_profile width) j = false.
Proof.
  intros Hj H1 H2. unfold rises.
  rewrite !synthetic_at by lia.
  rewrite (synthetic_value_dark H1 H2).
  destruct (synthetic_pixel_cases (j - 1)) as [[_ E] | [[_ E] | (_ & _ & E)]];
    unfold synthetic_value; rewrite E; reflexivity.
Qed.

Lemma synthetic_local_maxima (width : nat) :
  (302 <= width)%nat ->
  local_maxima_1d (synthetic_profile width) = [100; 300]%nat.
Proof.
  intros Hw. rewrite local_maxima_1d_from, synthetic_profile_length.
  set (x := synthetic_profile width).
  assert (Hat : forall j, (j < width)%nat -> at_ x j = synthetic_value j)
    by (intros j Hj; apply synthetic_at, Hj).
  rewrite (@maxima_from_skip x (width - 1) 99 1);
    [ | intros j Hj; apply synthetic_no_rise; lia | lia ].
  change (1 + 99)%nat with 100%nat.
  rewrite (@maxima_from_peak x (width - 1) 100);
    [ | lia | unfold rises; rewrite !Hat by lia; reflexivity
      | rewrite !Hat by lia; reflexivity | rewrite !Hat by lia; reflexivity ].
  f_equal.
  rewrite (@maxima_from_skip x (width - 1) 198 102);
    [ | intros j Hj; apply synthetic_no_rise; lia | lia ].
  change (102 + 198)%nat with 300%nat.
  rewrite (@maxima_from_peak x (width - 1) 300);
    [ | lia | unfold rises; rewrite !Hat by lia; reflexivity
      | rewrite !Hat by lia; reflexivity | rewrite !Hat by lia; reflexivity ].
  f_equal.
  apply maxima_from_end. intros j Hj. apply synthetic_no_rise; lia.
Qed.

Lemma synthetic_prominent (width p : nat) :
  (302 <= width)%nat -> p = 100%nat \/ p = 300%nat ->
  Qle_bool 10 (peak_prominence (synthetic_profile width) p) = true.
Proof.
  intros Hw Hp. apply Qle_bool_iff.
  eapply Qle_trans; [ | apply peak_prominence_lower_bound ].
  - rewrite !synthetic_at by (destruct Hp; subst; simpl; lia).
    destruct Hp; subst; vm_compute; discriminate.
  - destruct Hp; subst; lia.
  - rewrite synthetic_profile_length. destruct Hp; subst; lia.
  - rewrite !synthetic_at by (destruct Hp; subst; simpl; lia).
    destruct Hp; subst; vm_compute; discriminate.
  - rewrite !synthetic_at by (destruct Hp; subst; simpl; lia).
    destruct Hp; subst; vm_compute; discriminate.
Qed.

(** The detector finds exactly the two peaks, in the columns 100 and 300. *)
Lemma synthetic_find_peaks (width : nat) :
  (302 <= width)%nat ->
  find_peaks (synthetic_profile width) 10 20 = [100; 300]%nat.
Proof.
  intros Hw. unfold find_peaks.
  rewrite (synthetic_local_maxima Hw).
  cbn [map]. rewrite !synthetic_at by lia.
  replace (select_by_peak_distance [100; 300]%nat
             [synthetic_value 100; synthetic_value 300] 20)
    with [true; true] by (vm_compute; reflexivity).
  cbn [mask peak_prominences map].
  rewrite !synthetic_prominent by auto.
  reflexivity.
Qed.

(** On the synthetic image the brightest peak is the second one: the fit
    uses the anchors 100 and 300 bound to 502.60 and 588.87. *)
Lemma synthetic_calibration (width : nat) :
  (302 <= width)%nat ->
  get_wavelength_from_He (synthetic_image width) 0
  = calibrated_axis 100 300 He_502 He_588 width.
Proof.
  intros Hw. unfold get_wavelength_from_He.
  fold (synthetic_profile width).
  rewrite (synthetic_find_peaks Hw).
  rewrite (@wavelength_from_peaks_at (synthetic_profile width) [100; 300]%nat 0 1).
  - rewrite synthetic_profile_length. reflexivity.
  - repeat constructor; rewrite synthetic_profile_length; lia.
  - cbn [map]. rewrite !synthetic_at by lia. reflexivity.
  - simpl; lia.
  - simpl; lia.
Qed.

(** C3, as stated, fails: on the synthetic image (here 400 columns wide)
    the detector finds the peaks 100 and 300, the fit binds them to 502.60
    and 588.87, and the assembled transform sends pixel 100 to 502.60,
    not to 588.87, and pixel 300 to 588.87, not to 669.07. *)
Lemma synthetic_transform_misses_588_669 :
  exists t,
    find_peaks (get_column_intensity (synthetic_image 400)) 10 20 = [100; 300]%nat
    /\ get_linear_transformation NpScalar 100 300 He_502 He_588 = Ok t
    /\ get_wavelength_from_He (synthetic_image 400) 0
       = Ok (map (call t) (np_arange 400))
    /\ ~ is_fin (call t (pixel 100)) He_588
    /\ ~ is_fin (call t (pixel 300)) He_669.
Proof.
  eexists. split; [ | split; [ reflexivity | split ] ].
  - apply (@synthetic_find_peaks 400). lia.
  - rewrite synthetic_calibration by lia. reflexivity.
  - split; vm_compute; discriminate.
Qed.

(** C3, amended: for the synthetic one-row image, black except for the
    value 50 in column 100 and the value 80 in column 300, and offset 0,
    the assembled calibration transform satisfies
    [transform(100) == 502.60] and [transform(300) == 588.87]: the
    brightest peak is the second one, so the anchors are bound to the
    pair (502.60, 588.87). *)
Theorem synthetic_transform (width : nat) :
  (302 <= width)%nat ->
  exists t,
    find_peaks (get_column_intensity (synthetic_image width)) 10 20 = [100; 300]%nat
    /\ get_linear_transformation NpScalar 100 300 He_502 He_588 = Ok t
    /\ get_wavelength_from_He (synthetic_image width) 0
       = Ok (map (call t) (np_arange width))
    /\ is_fin (call t (pixel 100)) He_502
    /\ is_fin (call t (pixel 300)) He_588.
Proof.
  intros Hw. eexists. split; [ | split; [ reflexivity | split ] ].
  - apply (synthetic_find_peaks Hw).
  - rewrite (synthetic_calibration Hw). reflexivity.
  - split; vm_compute; reflexivity.
Qed.

Lemma synthetic_transform_witness :
  (302 <= 302)%nat
  /\ exists t,
       find_peaks (get_column_intensity (synthetic_image 302)) 10 20 = [100; 300]%nat
       /\ get_linear_transformation NpScalar 100 300 He_502 He_588 = Ok t
       /\ get_wavelength_from_He (synthetic_image 302) 0
          = Ok (map (call t) (np_arange 302))
       /\ is_fin (call t (pixel 100)) He_502
       /\ is_fin (call t (pixel 300)) He_588.
Proof.
  split; [ apply le_n | exact (@synthetic_transform 302 (le_n 302)) ].
Defined.

(** ** More on the fitter *)

(** X1: The fitted transform is the line through the two anchors, in
    two-point form, and one pixel further the wavelength grows by the
    slope. *)
Theorem two_point_form (k : scalar_kind) (x0 x1 y0 y1 : Q) :
  ~ x0 == x1 ->
  exists t mq,
    get_linear_transformation k x0 x1 y0 y1 = Ok t
    /\ m t = Fin mq
    /\ mq == (y1 - y0) / (x1 - x0)
    /\ (forall x, is_fin (call t (Fin x)) (y0 + (y1 - y0) * (x - x0) / (x1 - x0)))
    /\ (forall x, is_fin (f_sub (call t (Fin (x + 1))) (call t (Fin x))) mq).
Proof.
  intros Hx.
  assert (Hd : ~ x1 - x0 == 0) by (intros E; apply Hx; lra).
  do 2 eexists. split; [ apply get_linear_transformation_distinct, Hx | ].
  cbn [m]. split; [ reflexivity | ]. split; [ reflexivity | ].
  split; intros x; unfold call, f_sub, is_fin; simpl; field; exact Hd.
Qed.

Lemma two_point_form_witness :
  ~ 100 == 300
  /\ exists t mq,
       get_linear_transformation NpScalar 100 300 He_502 He_588 = Ok t
       /\ m t = Fin mq
       /\ mq == (He_588 - He_502) / (300 - 100)
       /\ (forall x, is_fin (call t (Fin x))
                       (He_502 + (He_588 - He_502) * (x - 100) / (300 - 100)))
       /\ (forall x, is_fin (f_sub (call t (Fin (x + 1))) (call t (Fin x))) mq).
Proof.
  split; [ discriminate | apply (@two_point_form NpScalar 100 300 He_502 He_588); discriminate ].
Defined.

(** X2: Exchanging the two anchors does not change the transform. *)
Theorem anchors_commute (k : scalar_kind) (x0 x1 y0 y1 : Q) :
  ~ x0 == x1 ->
  exists mq bq mq' bq',
    get_linear_transformation k x0 x1 y0 y1 = Ok (Transform (Fin mq) (Fin bq))
    /\ get_linear_transformation k x1 x0 y1 y0 = Ok (Transform (Fin mq') (Fin bq'))
    /\ mq == mq' /\ bq == bq'.
Proof.
  intros Hx.
  assert (Hx' : ~ x1 == x0) by (intros E; apply Hx; lra).
  do 4 eexists. split; [ apply get_linear_transformation_distinct, Hx | ].
  split; [ apply get_linear_transformation_distinct, Hx' | ].
  split; field; split; intros E; apply Hx; lra.
Qed.

Lemma anchors_commute_witness :
  ~ 100 == 300
  /\ exists mq bq mq' bq',
       get_linear_transformation NpScalar 100 300 He_502 He_588
         = Ok (Transform (Fin mq) (Fin bq))
       /\ get_linear_transformation NpScalar 300 100 He_588 He_502
          = Ok (Transform (Fin mq') (Fin bq'))
       /\ mq == mq' /\ bq == bq'.
Proof.
  split; [ discriminate | apply (@anchors_commute NpScalar 100 300 He_502 He_588); discriminate ].
Defined.

(** ** More on the column intensity *)

(** X3: A profile entry is a brightness: it lies between 0 and 255. *)
Theorem column_intensity_range (g : image) :
  rectangular g -> uint8_pixels g ->
  (255 * Z.of_nat (shape0 g) < 2 ^ 64)%Z ->
  Forall (fun v => 0 <= v <= 255) (get_column_intensity g).
Proof.
  intros Hr Hp Hh. apply Forall_forall. intros v Hin.
  apply (In_nth _ _ 0) in Hin. destruct Hin as (j & Hj & <-).
  unfold get_column_intensity in *. rewrite length_map in Hj.
  rewrite np_sum_axis0_length in Hj by exact Hr.
  rewrite nth_indep with (d' := inject_Z 0 / inject_Z (Z.of_nat (shape0 g)))
    by (rewrite length_map, np_sum_axis0_length by exact Hr; exact Hj).
  rewrite (map_nth (fun s => inject_Z s / inject_Z (Z.of_nat (shape0 g)))).
  rewrite np_sum_axis0_nth by assumption.
  pose proof (@column_sum_bounds g j Hp) as Hb. fold (shape0 g) in Hb.
  assert (Hpos : (0 < shape0 g)%nat).
  { destruct g as [ | row g ]; [ simpl in Hj; lia | simpl; lia ]. }
  assert (HH : 0 < inject_Z (Z.of_nat (shape0 g))).
  { change 0 with (inject_Z 0). rewrite <- Zlt_Qlt. lia. }
  split.
  - apply Qle_shift_div_l; [ exact HH | ].
    rewrite Qmult_0_l. change 0 with (inject_Z 0). rewrite <- Zle_Qle. lia.
  - apply Qle_shift_div_r; [ exact HH | ].
    change 255 with (inject_Z 255). rewrite <- inject_Z_mult, <- Zle_Qle. lia.
Qed.

Lemma column_intensity_range_witness :
  let g := [[10; 20; 30]; [30; 40; 60]]%Z in
  rectangular g /\ uint8_pixels g
  /\ (255 * Z.of_nat (shape0 g) < 2 ^ 64)%Z
  /\ Forall (fun v => 0 <= v <= 255) (get_column_intensity g).
Proof.
  intros g.
  assert (Hr : rectangular g) by (repeat constructor).
  assert (Hp : uint8_pixels g) by (repeat constructor; simpl; lia).
  assert (Hh : (255 * Z.of_nat (shape0 g) < 2 ^ 64)%Z) by (vm_compute; reflexivity).
  split; [ exact Hr | ]. split; [ exact Hp | ]. split; [ exact Hh | ].
  exact (@column_intensity_range g Hr Hp Hh).
Defined.

Lemma column_sum_perm (g g' : image) (j : nat) :
  Permutation g g' -> column_sum g j = column_sum g' j.
Proof.
  unfold column_sum.
  induction 1 as [ | row g g' Hperm IH | r1 r2 g | g g' g'' H1 IH1 H2 IH2 ];
    simpl; lia.
Qed.

Lemma rectangular_perm (g g' : image) :
  Permutation g g' -> rectangular g -> rectangular g' /\ shape1 g' = shape1 g.
Proof.
  intros Hperm Hr. unfold rectangular in *.
  assert (Hall : Forall (fun row => length row = shape1 g) g')
    by (eapply Permutation_Forall; eassumption).
  assert (Hs : shape1 g' = shape1 g).
  { destruct g' as [ | row g' ].
    - apply Permutation_sym, Permutation_nil in Hperm. subst. reflexivity.
    - inversion Hall; subst. simpl. assumption. }
  rewrite Hs. split; [ exact Hall | reflexivity ].
Qed.

(** After the rows are added up, each accumulator is the column sum
    reduced modulo [2 ^ 64]. *)
Lemma np_sum_axis0_mod (g : image) (j : nat) :
  rectangular g -> (j < shape1 g)%nat ->
  nth j (np_sum_axis0 g) 0%Z = u64 (column_sum g j).
Proof.
  intros Hr Hj. unfold np_sum_axis0.
  assert (Hlen : length (repeat 0%Z (shape1 g)) = shape1 g) by apply repeat_length.
  assert (Hr' : Forall (fun row => length row = length (repeat 0%Z (shape1 g))) g)
    by (rewrite Hlen; exact Hr).
  pose proof (@fold_add_row_nth g _ j Hr') as Hmod.
  pose proof (@fold_add_row_reduced g _ j Hr') as Hred.
  rewrite Hlen, nth_repeat_zero in *.
  specialize (Hmod Hj). specialize (Hred Hj ltac:(lia)).
  rewrite Z.add_0_l in Hmod. rewrite <- Hmod.
  unfold u64. symmetry. apply Z.mod_small. exact Hred.
Qed.

(** X4: The profile does not depend on the order of the rows of the image. *)
Theorem column_intensity_row_order (g g' : image) :
  Permutation g g' -> rectangular g ->
  get_column_intensity g' = get_column_intensity g.
Proof.
  intros Hperm Hr.
  destruct (rectangular_perm Hperm Hr) as [Hr' Hs].
  unfold get_column_intensity, shape0.
  rewrite (Permutation_length Hperm).
  f_equal. apply nth_ext with (d := 0%Z) (d' := 0%Z).
  - rewrite !np_sum_axis0_length by assumption. exact Hs.
  - intros j Hj. rewrite np_sum_axis0_length in Hj by exact Hr'.
    rewrite !np_sum_axis0_mod by (assumption || lia).
    f_equal. symmetry. apply column_sum_perm, Hperm.
Qed.

Lemma column_intensity_row_order_witness :
  let g := [[10; 20; 30]; [30; 40; 60]]%Z in
  let g' := [[30; 40; 60]; [10; 20; 30]]%Z in
  Permutation g g' /\ rectangular g
  /\ get_column_intensity g' = get_column_intensity g.
Proof.
  intros g g'.
  assert (Hperm : Permutation g g') by apply perm_swap.
  assert (Hr : rectangular g) by (repeat constructor).
  split; [ exact Hperm | ]. split; [ exact Hr | ].
  exact (@column_intensity_row_order g g' Hperm Hr).
Defined.

(** ** More on the calibration *)

Lemma find_peaks_interior (x : list Q) (prominence : Q) (distance : nat) :
  Forall (fun p => (1 <= p /\ p + 1 < length x)%nat)
         (find_peaks x prominence distance).
Proof.
  unfold find_peaks. do 2 apply mask_Forall.
  eapply Forall_impl; [ | apply maxima_loop_range ]. simpl. intros p Hp. lia.
Qed.

(** The values of a fitted line at an anchor, with the slope and the
    intercept as the fitter writes them. *)
Lemma line_at_anchors (x0 x1 y0 y1 : Q) :
  ~ x0 == x1 ->
  (y1 - y0) / (x1 - x0) * x0 + (y0 + - ((y1 - y0) / (x1 - x0) * x0)) == y0
  /\ (y1 - y0) / (x1 - x0) * x1 + (y0 + - ((y1 - y0) / (x1 - x0) * x0)) == y1.
Proof.
  intros Hx. split; field; intros E; apply Hx; lra.
Qed.

(** The body of the calibration: the indices of the two anchors in the
    peak sequence and the lines bound to them. *)
Lemma calibration_anchors (intensity : list Q) (peaks : list nat) (offset : Z) :
  (2 <= length peaks)%nat ->
  StronglySorted lt peaks ->
  Forall (fun p => (p < length intensity)%nat) peaks ->
  exists k i0 i1 y0 y1,
    np_argmax (map (at_ intensity) peaks) = Ok k
    /\ (i0 < i1 < length peaks)%nat
    /\ ((i0 = k /\ y0 = He_588) \/ (i1 = k /\ y1 = He_588))
    /\ forall offset',
         wavelength_from_peaks intensity peaks offset' =
           calibrated_axis (shifted_peak peaks offset' i0)
             (shifted_peak peaks offset' i1) y0 y1 (length intensity).
Proof.
  intros Hlen Hs Hr.
  assert (Hne : map (at_ intensity) peaks <> []).
  { destruct peaks; simpl in *; [ lia | discriminate ]. }
  destruct (np_argmax_spec Hne) as (k & Hk & Hlt & _).
  rewrite length_map in Hlt.
  destruct k as [ | k ].
  - exists 0%nat, 0%nat, 1%nat, He_588, He_669.
    split; [ exact Hk | ]. split; [ lia | ]. split; [ auto | ].
    intros offset'.
    apply (@wavelength_from_peaks_at intensity peaks offset' 0 Hr Hk Hlt Hlen).
  - exists (S k), k, (S k), He_502, He_588.
    split; [ exact Hk | ]. split; [ lia | ]. split; [ auto | ].
    intros offset'.
    rewrite (@wavelength_from_peaks_at intensity peaks offset' (S k) Hr Hk Hlt Hlen).
    cbn [Nat.eqb]. replace (S k - 1)%nat with k by lia. reflexivity.
Qed.

(** X5: In the column of the brightest detected peak (shifted by the offset)
    the calibrated wavelength is 588.87 nm, in both configurations. *)
Theorem brightest_peak_is_588 (He : image) (offset : Z) :
  (2 <= length (find_peaks (get_column_intensity He) 10 20))%nat ->
  exists k wl,
    np_argmax (map (at_ (get_column_intensity He))
                   (find_peaks (get_column_intensity He) 10 20)) = Ok k
    /\ get_wavelength_from_He He offset = Ok wl
    /\ forall i, (i < length (get_column_intensity He))%nat ->
         Z.of_nat i
         = (Z.of_nat (nth k (find_peaks (get_column_intensity He) 10 20) O) + offset)%Z ->
         is_fin (nth i wl NaN) He_588.
Proof.
  intros Hlen.
  set (intensity := get_column_intensity He) in *.
  set (peaks := find_peaks intensity 10 20) in *.
  pose proof (find_peaks_sorted intensity 10 20) as Hs.
  pose proof (find_peaks_range intensity 10 20) as Hr.
  fold peaks in Hs, Hr.
  destruct (@calibration_anchors intensity peaks offset Hlen Hs Hr)
    as (k & i0 & i1 & y0 & y1 & Hk & Hij & Hbright & Hbody).
  pose proof (@shifted_peak_lt peaks offset i0 i1 Hs Hij) as Hx.
  assert (Hne : ~ shifted_peak peaks offset i0 == shifted_peak peaks offset i1)
    by (intros E; lra).
  assert (Hwl : exists wl, get_wavelength_from_He He offset = Ok wl
                           /\ forall i, (i < length intensity)%nat ->
                                nth i wl NaN
                                = Fin ((y1 - y0)
                                       / (shifted_peak peaks offset i1
                                          - shifted_peak peaks offset i0)
                                       * inject_Z (Z.of_nat i)
                                       + (y0 + - ((y1 - y0)
                                                  / (shifted_peak peaks offset i1
                                                     - shifted_peak peaks offset i0)
                                                  * shifted_peak peaks offset i0)))).
  { unfold get_wavelength_from_He. fold intensity. fold peaks.
    rewrite Hbody. unfold calibrated_axis.
    rewrite (@get_linear_transformation_distinct NpScalar _ _ y0 y1 Hne). cbn [bind].
    eexists. split; [ reflexivity | ].
    intros i Hi. rewrite map_call_nth by exact Hi. apply call_finite. }
  destruct Hwl as (wl & Hcal & Hnth).
  exists k, wl. split; [ exact Hk | ]. split; [ exact Hcal | ].
  intros i Hi Hpos. rewrite (Hnth i Hi). unfold is_fin.
  destruct (line_at_anchors y0 y1 Hne) as [H0 H1].
  destruct Hbright as [[Ei ->] | [Ei ->]]; rewrite <- Ei in Hpos.
  - replace (inject_Z (Z.of_nat i)) with (shifted_peak peaks offset i0)
      by (unfold shifted_peak; rewrite Hpos; reflexivity).
    exact H0.
  - replace (inject_Z (Z.of_nat i)) with (shifted_peak peaks offset i1)
      by (unfold shifted_peak; rewrite Hpos; reflexivity).
    exact H1.
Qed.




(** X7: A calibration that succeeds has at least 23 columns: a peak is never
    on the border and two peaks are at least 20 columns apart. *)
Theorem calibration_needs_23_columns (He : image) (offset : Z) (wl : list fval) :
  get_wavelength_from_He He offset = Ok wl ->
  (23 <= length wl)%nat
  /\ length wl = length (get_column_intensity He)
  /\ (rectangular He -> (23 <= shape1 He)%nat).
Proof.
  intros Hok.
  pose proof (calibration_ok_two_peaks _ _ Hok) as Hlen.
  destruct (@calibration_increasing He offset Hlen)
    as (x0 & x1 & y0 & y1 & mq & bq & wl' & _ & _ & _ & _ & _ & Hcal & Haxis & _).
  rewrite Hok in Hcal. injection Hcal as <-.
  assert (Hwl : length wl = length (get_column_intensity He))
    by (rewrite Haxis, length_map; apply np_arange_length).
  set (intensity := get_column_intensity He) in *.
  set (peaks := find_peaks intensity 10 20) in *.
  pose proof (find_peaks_spaced intensity 10 20) as Hsp. fold peaks in Hsp.
  pose proof (find_peaks_interior intensity 10 20) as Hin. fold peaks in Hin.
  assert (Hgap : (nth 0 peaks 0 + 20 <= nth 1 peaks 0)%nat)
    by (apply (@sorted_nth_rel nat _ 0%nat peaks Hsp 0%nat 1%nat); lia).
  rewrite Forall_forall in Hin.
  assert (Hp0 : (0 < length peaks)%nat) by lia.
  assert (Hp1 : (1 < length peaks)%nat) by lia.
  assert (H0 := Hin _ (@nth_In nat 0%nat peaks 0%nat Hp0)).
  assert (H1 := Hin _ (@nth_In nat 1%nat peaks 0%nat Hp1)).
  assert (Hw : (23 <= length intensity)%nat) by lia.
  split; [ lia | ]. split; [ exact Hwl | ].
  intros Hrect. unfold intensity, get_column_intensity in Hw.
  rewrite length_map, np_sum_axis0_length in Hw by exact Hrect. exact Hw.
Qed.


(** ** The Balmer series *)

Lemma py_div_nonzero (a d : Q) : ~ d == 0 -> py_div a d = Ok (a / d).
Proof.
  intros Hd. unfold py_div.
  destruct (Qeq_bool d 0) eqn:E; [ | reflexivity ].
  apply Qeq_bool_iff in E. contradiction.
Qed.

Lemma py_div_zero (a d : Q) : d == 0 -> py_div a d = Raise ZeroDivisionError.
Proof.
  intros Hd. unfold py_div. apply Qeq_bool_iff in Hd. rewrite Hd. reflexivity.
Qed.

Lemma R_H_pos (cte : constants) : physical cte -> 0 < R_H cte.
Proof.
  intros (HR & He & Hp & Hn). unfold R_H.
  assert (Hr : 0 < m_e cte / (m_p cte + m_n cte)) by (apply Qlt_shift_div_l; lra).
  apply Qlt_shift_div_l; lra.
Qed.

Lemma Ryd_hidrogeno_value (cte : constants) :
  physical cte -> Ryd_hidrogeno cte = Ok (R_H cte).
Proof.
  intros (HR & He & Hp & Hn). unfold Ryd_hidrogeno.
  assert (Hr : 0 < m_e cte / (m_p cte + m_n cte)) by (apply Qlt_shift_div_l; lra).
  rewrite py_div_nonzero by (intros E; lra). cbn [bind].
  rewrite py_div_nonzero by (intros E; lra). reflexivity.
Qed.

(** The divisor of the last division, [R_H * (1/4 - 1/n**2)]. *)
Lemma balmer_divisor (R s : Q) :
  0 < s -> R * (1 / 4 - 1 / s) == R * (s - 4) / (4 * s).
Proof. intros Hs. field. intros E. lra. Qed.

Lemma balmer_divisor_zero (R s : Q) :
  0 < R -> 0 < s -> (R * (1 / 4 - 1 / s) == 0 <-> s == 4).
Proof.
  intros HR Hs. rewrite (@balmer_divisor R s Hs). split.
  - intros H.
    assert (H' : R * (s - 4) == 0).
    { setoid_replace (R * (s - 4)) with (R * (s - 4) / (4 * s) * (4 * s))
        by (field; intros E'; lra).
      rewrite H. ring. }
    apply Qmult_integral in H'. destruct H' as [H' | H']; lra.
  - intros H. rewrite H. field.
Qed.

Lemma square_pos (n : Z) : n <> 0%Z -> 0 < inject_Z (n ^ 2).
Proof.
  intros Hn. change 0 with (inject_Z 0). rewrite <- Zlt_Qlt. nia.
Qed.

Lemma balmer_at_zero (cte : constants) :
  physical cte -> balmer_wavelength cte 0 = Raise ZeroDivisionError.
Proof.
  intros Hc. unfold balmer_wavelength. rewrite (@Ryd_hidrogeno_value cte Hc). reflexivity.
Qed.

Lemma balmer_at_two (cte : constants) (n : Z) :
  physical cte -> (n ^ 2 = 4)%Z ->
  balmer_wavelength cte n = Raise ZeroDivisionError.
Proof.
  intros Hc Hn. unfold balmer_wavelength. rewrite (@Ryd_hidrogeno_value cte Hc), Hn.
  cbn [bind]. change (py_div 1 4) with (Ok (1 / 4)). cbn [bind].
  change (py_div 1 (inject_Z 4)) with (Ok (1 / 4)). cbn [bind].
  apply py_div_zero. ring.
Qed.

Lemma balmer_value (cte : constants) (n : Z) :
  physical cte -> n <> 0%Z -> (n ^ 2 <> 4)%Z ->
  balmer_wavelength cte n
  = Ok (1 / (R_H cte * (1 / 4 - 1 / inject_Z (n ^ 2)))).
Proof.
  intros Hc Hn Hn2. pose proof (@square_pos n Hn) as Hs.
  unfold balmer_wavelength. rewrite (@Ryd_hidrogeno_value cte Hc).
  cbn [bind]. change (py_div 1 4) with (Ok (1 / 4)). cbn [bind].
  rewrite py_div_nonzero by (intros E; lra). cbn [bind].
  apply py_div_nonzero. rewrite (@balmer_divisor_zero (R_H cte) _ (@R_H_pos cte Hc) Hs).
  change 4 with (inject_Z 4). rewrite inject_Z_injective. exact Hn2.
Qed.

Lemma square_four (n : Z) : (n ^ 2 = 4)%Z <-> n = 2%Z \/ n = (-2)%Z.
Proof. split; [ intros H; nia | intros [-> | ->]; reflexivity ]. Qed.

(** X10: [balmer_wavelength] raises [ZeroDivisionError] exactly for [n] in
    [{-2, 0, 2}]; for every other [n] it returns
    [4 n^2 / (R_H (n^2 - 4))]. *)
Theorem balmer_wavelength_domain (cte : constants) (n : Z) :
  physical cte ->
  (raises (balmer_wavelength cte n)
   <-> n = 0%Z \/ n = 2%Z \/ n = (-2)%Z)
  /\ (raises (balmer_wavelength cte n) ->
      balmer_wavelength cte n = Raise ZeroDivisionError)
  /\ (n <> 0%Z -> n <> 2%Z -> n <> (-2)%Z ->
      exists q, balmer_wavelength cte n = Ok q
                /\ q == 4 * inject_Z (n ^ 2) / (R_H cte * (inject_Z (n ^ 2) - 4))).
Proof.
  intros Hc.
  destruct (Z.eq_dec n 0) as [-> | Hn0].
  { rewrite (@balmer_at_zero cte Hc). split; [ | split ].
    - split; [ auto | intros _; eexists; reflexivity ].
    - reflexivity.
    - congruence. }
  destruct (Z.eq_dec (n ^ 2) 4) as [Hn2 | Hn2].
  { rewrite (@balmer_at_two cte n Hc Hn2). apply square_four in Hn2. split; [ | split ].
    - split; [ tauto | intros _; eexists; reflexivity ].
    - reflexivity.
    - intros _ H1 H2. tauto. }
  rewrite (@balmer_value cte n Hc Hn0 Hn2).
  assert (Hnot : ~ (n = 0%Z \/ n = 2%Z \/ n = (-2)%Z)).
  { rewrite <- square_four. tauto. }
  split; [ | split ].
  - split; [ intros [e He]; discriminate He | tauto ].
  - intros [e He]. discriminate He.
  - intros _ _ _. eexists. split; [ reflexivity | ].
    pose proof (@square_pos n Hn0) as Hs. pose proof (@R_H_pos cte Hc) as HR.
    assert (Hs4 : ~ inject_Z (n ^ 2) == 4).
    { change 4 with (inject_Z 4). rewrite inject_Z_injective. exact Hn2. }
    field. repeat split; intros E; lra.
Qed.





(** X12: The sign of the result: positive from the third level on, negative
    for [n = 1] and [n = -1]. *)
Theorem balmer_wavelength_sign (cte : constants) (n : Z) (q : Q) :
  physical cte ->
  balmer_wavelength cte n = Ok q ->
  (0 < q <-> (4 < n ^ 2)%Z) /\ (q < 0 <-> (n ^ 2 = 1)%Z).
Proof.
  intros Hc Hq.
  pose proof (@R_H_pos cte Hc) as HR.
  destruct (Z.eq_dec n 0) as [-> | Hn0].
  { rewrite (@balmer_at_zero cte Hc) in Hq. discriminate Hq. }
  destruct (Z.eq_dec (n ^ 2) 4) as [Hn2 | Hn2].
  { rewrite (@balmer_at_two cte n Hc Hn2) in Hq. discriminate Hq. }
  rewrite (@balmer_value cte n Hc Hn0 Hn2) in Hq. injection Hq as <-.
  pose proof (@square_pos n Hn0) as Hs.
  assert (Hform : 1 / (R_H cte * (1 / 4 - 1 / inject_Z (n ^ 2)))
                  == 4 * inject_Z (n ^ 2) / (R_H cte * (inject_Z (n ^ 2) - 4))).
  { assert (Hs4 : ~ inject_Z (n ^ 2) == 4).
    { change 4 with (inject_Z 4). rewrite inject_Z_injective. exact Hn2. }
    field. repeat split; intros E; lra. }
  rewrite Hform.
  destruct (Z_lt_le_dec 4 (n ^ 2)) as [Hbig | Hsmall].
  - assert (Hs4 : 4 < inject_Z (n ^ 2))
      by (change 4 with (inject_Z 4); rewrite <- Zlt_Qlt; exact Hbig).
    assert (Hpos : 0 < 4 * inject_Z (n ^ 2) / (R_H cte * (inject_Z (n ^ 2) - 4))).
    { apply Qlt_shift_div_l; [ | lra ].
      apply Qmult_lt_0_compat; lra. }
    split; split; intros H; try assumption; try lia. lra.
  - assert (Hone : (n ^ 2 = 1)%Z).
    { assert (Hr : (-2 < n < 2)%Z) by nia.
      assert (Hc1 : n = 1%Z \/ n = (-1)%Z) by lia.
      destruct Hc1 as [-> | ->]; reflexivity. }
    rewrite Hone.
    assert (Hneg : 4 * inject_Z 1 / (R_H cte * (inject_Z 1 - 4)) < 0).
    { setoid_replace (4 * inject_Z 1 / (R_H cte * (inject_Z 1 - 4)))
        with (- (4 / (3 * R_H cte))) by (field; intros E; lra).
      assert (0 < 4 / (3 * R_H cte)) by (apply Qlt_shift_div_l; lra).
      lra. }
    split; split; intros H; try reflexivity; try lia; try exact Hneg. lra.
Qed.

Lemma codata_2018_physical : physical codata_2018.
Proof. repeat split. Qed.

(** ** The colour of a wavelength *)

Lemma between_true (lo hi w : Q) : between lo hi w = true <-> lo <= w <= hi.
Proof.
  unfold between. rewrite andb_true_iff, !Qle_bool_iff. tauto.
Qed.

Lemma between_false (lo hi w : Q) : between lo hi w = false <-> w < lo \/ hi < w.
Proof.
  split.
  - intros H. destruct (Qlt_le_dec w lo) as [Hl | Hl]; [ auto | ].
    destruct (Qlt_le_dec hi w) as [Hh | Hh]; [ auto | ].
    assert (E : between lo hi w = true) by (apply between_true; auto).
    congruence.
  - intros H. destruct (between lo hi w) eqn:E; [ | reflexivity ].
    apply between_true in E. lra.
Qed.

(** The chain of [if]/[elif] takes the first branch whose guard holds. *)
Lemma wavelength_to_RGB_first (w : Q) :
  wavelength_to_RGB w =
    match find (fun branch => fst branch w) rgb_branches with
    | Some branch => snd branch w
    | None => white
    end.
Proof.
  unfold wavelength_to_RGB, rgb_branches. cbn [find fst snd].
  repeat match goal with
         | |- context [ if ?g then _ else _ ] => destruct g; [ reflexivity | ]
         end.
  reflexivity.
Qed.

Ltac branch_facts :=
  repeat match goal with
         | H : between _ _ _ = true |- _ => apply between_true in H
         | H : between _ _ _ = false |- _ => apply between_false in H
         end.

(** X13: White is the colour of the wavelengths outside [380, 750], and of no
    other. *)
Theorem white_outside_visible_range (w : Q) :
  wavelength_to_RGB w = white <-> ~ (380 <= w <= 750).
Proof.
  unfold wavelength_to_RGB.
  destruct (between 380 440 w) eqn:E1;
    [ branch_facts; split; [ discriminate | intros H; exfalso; apply H; lra ] | ].
  destruct (between 440 490 w) eqn:E2;
    [ branch_facts; split; [ discriminate | intros H; exfalso; apply H; lra ] | ].
  destruct (between 490 510 w) eqn:E3;
    [ branch_facts; split; [ discriminate | intros H; exfalso; apply H; lra ] | ].
  destruct (between 510 580 w) eqn:E4;
    [ branch_facts; split; [ discriminate | intros H; exfalso; apply H; lra ] | ].
  destruct (between 580 645 w) eqn:E5;
    [ branch_facts; split; [ discriminate | intros H; exfalso; apply H; lra ] | ].
  destruct (between 645 750 w) eqn:E6;
    [ branch_facts; split; [ discriminate | intros H; exfalso; apply H; lra ] | ].
  branch_facts. split; [ intros _ | reflexivity ]. lra.
Qed.

(** A ramp [(w - lo) / (hi - lo)] stays in the unit interval on [lo, hi]. *)
Lemma ramp_up (lo hi w : Q) :
  lo < hi -> lo <= w <= hi -> 0 <= (w - lo) / (hi - lo) <= 1.
Proof.
  intros Hlh Hw. split.
  - apply Qle_shift_div_l; lra.
  - apply Qle_shift_div_r; lra.
Qed.

Lemma ramp_down (lo hi w : Q) :
  lo < hi -> lo <= w <= hi -> 0 <= (hi - w) / (hi - lo) <= 1.
Proof.
  intros Hlh Hw. split.
  - apply Qle_shift_div_l; lra.
  - apply Qle_shift_div_r; lra.
Qed.

Lemma attenuation_bounds (r : Q) :
  0 <= r <= 1 -> 0 <= (3 # 10) + (7 # 10) * r <= 1.
Proof. intros Hr. lra. Qed.

Lemma product_in_unit (p q : Q) : 0 <= p <= 1 -> 0 <= q <= 1 -> 0 <= p * q <= 1.
Proof.
  intros Hp Hq. split.
  - apply Qmult_le_0_compat; tauto.
  - apply Qle_trans with (1 * 1); [ | apply Qle_refl ].
    apply Qmult_le_compat_nonneg; tauto.
Qed.

Lemma in_unit_0 : in_unit 0.
Proof. unfold in_unit. lra. Qed.

Lemma in_unit_1 : in_unit 1.
Proof. unfold in_unit. lra. Qed.

Lemma in_unit_eq (p q : Q) : p == q -> in_unit p -> in_unit q.
Proof. unfold in_unit. intros E H. rewrite <- E. exact H. Qed.

Lemma rgb_380_440_unit (w : Q) :
  380 <= w <= 440 -> Forall (fun c => in_unit (channel_arg c)) (channels (rgb_380_440 w)).
Proof.
  intros Hw. unfold rgb_380_440, channels; cbn [fst snd channel_arg].
  assert (Hup : in_unit ((w - 380) / (440 - 380))) by (apply ramp_up; lra).
  assert (Hdown : in_unit ((440 - w) / (440 - 380))) by (apply ramp_down; lra).
  assert (Hatt : in_unit ((3 # 10) + (7 # 10) * (w - 380) / (440 - 380))).
  { eapply in_unit_eq; [ | apply attenuation_bounds, Hup ]. field. }
  constructor; [ | constructor; [ apply in_unit_0 | constructor; [ exact Hatt | constructor ] ] ].
  apply product_in_unit; [ | exact Hatt ].
  eapply in_unit_eq; [ | exact Hdown ]. field.
Qed.

Lemma rgb_645_750_unit (w : Q) :
  645 <= w <= 750 -> Forall (fun c => in_unit (channel_arg c)) (channels (rgb_645_750 w)).
Proof.
  intros Hw. unfold rgb_645_750, channels; cbn [fst snd channel_arg].
  assert (Hdown : in_unit ((750 - w) / (750 - 645))) by (apply ramp_down; lra).
  assert (Hatt : in_unit ((3 # 10) + (7 # 10) * (750 - w) / (750 - 645))).
  { eapply in_unit_eq; [ | apply attenuation_bounds, Hdown ]. field. }
  constructor; [ exact Hatt | ].
  constructor; [ apply in_unit_0 | constructor; [ apply in_unit_0 | constructor ] ].
Qed.

(** Every channel is computed from a number of the unit interval: the
    base of a power is never negative. *)
Lemma wavelength_to_RGB_args (w : Q) :
  Forall (fun c => in_unit (channel_arg c)) (channels (wavelength_to_RGB w)).
Proof.
  unfold wavelength_to_RGB.
  destruct (between 380 440 w) eqn:E1;
    [ branch_facts; apply rgb_380_440_unit, E1 | ].
  destruct (between 440 490 w) eqn:E2.
  { branch_facts. unfold channels; cbn [fst snd rgb_440_490 rgb_510_580].
    repeat (constructor; [ first [ apply in_unit_0 | apply in_unit_1
                                 | cbn [channel_arg]; apply ramp_up; lra ] | ]).
    constructor. }
  destruct (between 490 510 w) eqn:E3.
  { branch_facts. unfold channels; cbn [fst snd rgb_490_510 rgb_580_645].
    repeat (constructor; [ first [ apply in_unit_0 | apply in_unit_1
                                 | cbn [channel_arg]; apply ramp_down; lra ] | ]).
    constructor. }
  destruct (between 510 580 w) eqn:E4.
  { branch_facts. unfold channels; cbn [fst snd rgb_440_490 rgb_510_580].
    repeat (constructor; [ first [ apply in_unit_0 | apply in_unit_1
                                 | cbn [channel_arg]; apply ramp_up; lra ] | ]).
    constructor. }
  destruct (between 580 645 w) eqn:E5.
  { branch_facts. unfold channels; cbn [fst snd rgb_490_510 rgb_580_645].
    repeat (constructor; [ first [ apply in_unit_0 | apply in_unit_1
                                 | cbn [channel_arg]; apply ramp_down; lra ] | ]).
    constructor. }
  destruct (between 645 750 w) eqn:E6;
    [ branch_facts; apply rgb_645_750_unit, E6 | ].
  unfold channels, white; cbn [fst snd].
  repeat (constructor; [ apply in_unit_1 | ]). constructor.
Qed.

(** X14: Every power [base ** gamma] of the function has its base in [0, 1],
    and under any power that maps the unit interval into itself every
    channel of the colour lies in [0, 1]. *)
Theorem wavelength_to_RGB_unit (pow_gamma : Q -> Q) (w : Q) :
  (forall x, 0 <= x <= 1 -> 0 <= pow_gamma x <= 1) ->
  Forall (fun c => 0 <= channel_arg c <= 1
                   /\ 0 <= channel_value pow_gamma c <= 1)
         (channels (wavelength_to_RGB w)).
Proof.
  intros Hpow. eapply Forall_impl; [ | apply wavelength_to_RGB_args ].
  intros c Hc. split; [ exact Hc | ].
  destruct c as [ v | base ]; [ exact Hc | apply Hpow, Hc ].
Qed.

Section Overlaps.

Variable pow_gamma : Q -> Q.
Hypothesis pow_gamma_0 : forall x, x == 0 -> pow_gamma x == 0.
Hypothesis pow_gamma_1 : forall x, x == 1 -> pow_gamma x == 1.

Lemma same_colour_refl (c : rgb) : same_colour pow_gamma c c.
Proof.
  unfold same_colour, channels. repeat (constructor; [ apply Qeq_refl | ]). constructor.
Qed.

Ltac colour_at Hw :=
  unfold same_colour, channels,
    rgb_380_440, rgb_440_490, rgb_490_510, rgb_510_580, rgb_580_645, rgb_645_750;
  cbn [fst snd];
  repeat (constructor;
          [ cbn [channel_value];
            first [ apply Qeq_refl
                  | apply pow_gamma_0; rewrite Hw; reflexivity
                  | symmetry; apply pow_gamma_0; rewrite Hw; reflexivity
                  | apply pow_gamma_1; rewrite Hw; reflexivity
                  | symmetry; apply pow_gamma_1; rewrite Hw; reflexivity ] | ]);
  constructor.

Lemma agree_at_440 (w : Q) : w == 440 -> same_colour pow_gamma (rgb_380_440 w) (rgb_440_490 w).
Proof. intros Hw. colour_at Hw. Qed.

Lemma agree_at_490 (w : Q) : w == 490 -> same_colour pow_gamma (rgb_440_490 w) (rgb_490_510 w).
Proof. intros Hw. colour_at Hw. Qed.

Lemma agree_at_510 (w : Q) : w == 510 -> same_colour pow_gamma (rgb_490_510 w) (rgb_510_580 w).
Proof. intros Hw. colour_at Hw. Qed.

Lemma agree_at_580 (w : Q) : w == 580 -> same_colour pow_gamma (rgb_510_580 w) (rgb_580_645 w).
Proof. intros Hw. colour_at Hw. Qed.

Lemma agree_at_645 (w : Q) : w == 645 -> same_colour pow_gamma (rgb_580_645 w) (rgb_645_750 w).
Proof. intros Hw. colour_at Hw. Qed.

Ltac same_branch :=
  first [ apply same_colour_refl
        | apply agree_at_440; lra
        | apply agree_at_490; lra
        | apply agree_at_510; lra
        | apply agree_at_580; lra
        | apply agree_at_645; lra
        | exfalso; lra ].

(** X15: Where the guards of two branches overlap, both branches give the same
    colour: the function returns what any branch whose guard holds would
    return, whatever the order of the [elif]s.  The power satisfies
    [0 ** gamma = 0] and [1 ** gamma = 1]. *)
Theorem elif_order_irrelevant (w : Q) (guard : Q -> bool) (body : Q -> rgb) :
  In (guard, body) rgb_branches -> guard w = true ->
  same_colour pow_gamma (wavelength_to_RGB w) (body w).
Proof.
  intros Hin Hg. unfold rgb_branches in Hin. cbn [In] in Hin.
  repeat (destruct Hin as [Hin | Hin];
          [ injection Hin as <- <-; unfold wavelength_to_RGB;
            repeat match goal with
                   | |- context [ if between ?lo ?hi w then _ else _ ] =>
                       destruct (between lo hi w) eqn:?; [ branch_facts; same_branch | ]
                   end;
            congruence | ]).
  contradiction.
Qed.

End Overlaps.

(** ** Instances *)

Lemma brightest_peak_is_588_witness :
  (2 <= length (find_peaks (get_column_intensity helium_image) 10 20))%nat
  /\ exists k wl,
       np_argmax (map (at_ (get_column_intensity helium_image))
                      (find_peaks (get_column_intensity helium_image) 10 20)) = Ok k
       /\ get_wavelength_from_He helium_image 0 = Ok wl
       /\ forall i, (i < length (get_column_intensity helium_image))%nat ->
            Z.of_nat i
            = (Z.of_nat (nth k (find_peaks (get_column_intensity helium_image) 10 20) O)
               + 0)%Z ->
            is_fin (nth i wl NaN) He_588.
Proof.
  assert (Hlen : (2 <= length (find_peaks (get_column_intensity helium_image) 10 20))%nat)
    by (vm_compute; lia).
  split; [ exact Hlen | exact (@brightest_peak_is_588 helium_image 0 Hlen) ].
Defined.


Lemma calibration_needs_23_columns_witness :
  exists wl,
    get_wavelength_from_He helium_image 0 = Ok wl
    /\ (23 <= length wl)%nat
    /\ length wl = length (get_column_intensity helium_image)
    /\ (rectangular helium_image -> (23 <= shape1 helium_image)%nat).
Proof.
  destruct (get_wavelength_from_He helium_image 0) as [ wl | e ] eqn:E.
  - exists wl. split; [ reflexivity | ].
    exact (@calibration_needs_23_columns helium_image 0 wl E).
  - vm_compute in E. discriminate E.
Defined.

Lemma balmer_wavelength_domain_witness :
  physical codata_2018
  /\ (raises (balmer_wavelength codata_2018 2)
      <-> 2%Z = 0%Z \/ 2%Z = 2%Z \/ 2%Z = (-2)%Z)
  /\ (raises (balmer_wavelength codata_2018 2) ->
      balmer_wavelength codata_2018 2 = Raise ZeroDivisionError)
  /\ (2%Z <> 0%Z -> 2%Z <> 2%Z -> 2%Z <> (-2)%Z ->
      exists q, balmer_wavelength codata_2018 2 = Ok q
                /\ q == 4 * inject_Z (2 ^ 2)
                        / (R_H codata_2018 * (inject_Z (2 ^ 2) - 4))).
Proof.
  assert (Hc : physical codata_2018) by (repeat split).
  split; [ exact Hc | exact (@balmer_wavelength_domain codata_2018 2 Hc) ].
Defined.


Lemma balmer_wavelength_sign_witness :
  physical codata_2018
  /\ exists q,
       balmer_wavelength codata_2018 1 = Ok q
       /\ (0 < q <-> (4 < 1 ^ 2)%Z) /\ (q < 0 <-> (1 ^ 2 = 1)%Z).
Proof.
  assert (Hc : physical codata_2018) by (repeat split).
  split; [ exact Hc | ].
  destruct (balmer_wavelength codata_2018 1) as [ q | e ] eqn:E.
  - exists q. split; [ reflexivity | ].
    exact (@balmer_wavelength_sign codata_2018 1 q Hc E).
  - vm_compute in E. discriminate E.
Defined.

Lemma wavelength_to_RGB_unit_witness :
  (forall x : Q, 0 <= x <= 1 -> 0 <= x <= 1)
  /\ Forall (fun c => 0 <= channel_arg c <= 1
                      /\ 0 <= channel_value (fun x => x) c <= 1)
            (channels (wavelength_to_RGB 400)).
Proof.
  split; [ intros x H; exact H | ].
  exact (@wavelength_to_RGB_unit (fun x => x) 400 (fun x H => H)).
Defined.

Lemma elif_order_irrelevant_witness :
  (forall x : Q, x == 0 -> x == 0)
  /\ (forall x : Q, x == 1 -> x == 1)
  /\ In (between 440 490, rgb_440_490) rgb_branches
  /\ between 440 490 440 = true
  /\ same_colour (fun x => x) (wavelength_to_RGB 440) (rgb_440_490 440).
Proof.
  assert (Hin : In (between 440 490, rgb_440_490) rgb_branches)
    by (right; left; reflexivity).
  split; [ intros x H; exact H | ]. split; [ intros x H; exact H | ].
  split; [ exact Hin | ]. split; [ reflexivity | ].
  exact (@elif_order_irrelevant (fun x => x) (fun x H => H) (fun x H => H)
           440 (between 440 490) rgb_440_490 Hin eq_refl).
Defined.

(** ** The [plot] flag and the data *)


